(** * chassis-frontend: the bootstrap layer of the proxy chassis

    A shallow embedding of [src/chassis-frontend.c] and the properties of
    its functions.  C strings are [string], a nullable [char *] is an
    [option string] ([None] is the NULL pointer), [int] results are [Z],
    a [GPtrArray] is a list in insertion order.  Calls into GLib and into
    the other chassis modules are visible in a trace of events, so that
    "is not attempted" and "happens before" are properties of the trace. *)

From Stdlib Require Import ZArith Ascii String.
From stdpp Require Import gmap strings list fin_maps pretty.

Local Open Scope string_scope.
Local Open Scope list_scope.
Local Open Scope Z_scope.

(** ** Build configuration *)

(** The preprocessor symbols the file branches on.  [WIN32] and [_WIN32]
    are tested separately by the source and are kept apart here. *)
Record platform := {
  WIN32 : bool;
  _WIN32 : bool;
  G_OS_WIN32 : bool;
  G_DIR_SEPARATOR : ascii;
  G_MODULE_SUFFIX : string;
  SHARED_LIBRARY_SUFFIX_override : option string;
  PACKAGE : string
}.

Definition unix_platform : platform := {|
  WIN32 := false;
  _WIN32 := false;
  G_OS_WIN32 := false;
  G_DIR_SEPARATOR := "/"%char;
  G_MODULE_SUFFIX := "so";
  SHARED_LIBRARY_SUFFIX_override := None;
  PACKAGE := "mysql-proxy"
|}.

Definition win32_platform : platform := {|
  WIN32 := true;
  _WIN32 := true;
  G_OS_WIN32 := true;
  G_DIR_SEPARATOR := "\"%char;
  G_MODULE_SUFFIX := "dll";
  SHARED_LIBRARY_SUFFIX_override := None;
  PACKAGE := "mysql-proxy"
|}.

(** [#ifdef WIN32 #define G_MODULE_PREFIX "plugin-" #else "lib"]. *)
Definition G_MODULE_PREFIX (pf : platform) : string :=
  if WIN32 pf then "plugin-" else "lib".

(** [#ifndef SHARED_LIBRARY_SUFFIX #define SHARED_LIBRARY_SUFFIX G_MODULE_SUFFIX]. *)
Definition SHARED_LIBRARY_SUFFIX (pf : platform) : string :=
  match SHARED_LIBRARY_SUFFIX_override pf with
  | Some s => s
  | None => G_MODULE_SUFFIX pf
  end.

(** The character [%c] prints, as a one-character string. *)
Definition chr (c : ascii) : string := String c EmptyString.

(** ** Events *)

(** The error codes of GLib's option parser, and the error of
    [g_locale_to_utf8], which belongs to another error domain and which
    the parser hands on as it is. *)
Inductive GOptionError :=
| G_OPTION_ERROR_UNKNOWN_OPTION
| G_OPTION_ERROR_BAD_VALUE
| G_OPTION_ERROR_FAILED
| G_CONVERT_ERROR_ILLEGAL_SEQUENCE.

Global Instance GOptionError_eq_dec : EqDecision GOptionError.
Proof. solve_decision. Defined.

(** What the functions of the file do to the outside: diagnostics through
    [g_critical] and calls into modules that are not part of the file.  A
    call of [g_option_context_parse] is recorded with the context's
    ignore-unknown setting, the arguments it was given and the code of the
    error it failed with, if it failed. *)
Inductive event :=
| EvCritical (msg : string)
| EvGetBasedir (prg_name : string)
| EvPluginLoad (filename : string)
| EvFilemodeCheck (filename : string)
| EvKeyFileLoad (filename : string)
| EvSetenv (key value : string)
| EvOptionParse (ignore_unknown : bool) (argv : list string)
                (failed : option GOptionError)
| EvKeyfileToOptions (group : string)
| EvResolvePath (base_dir : string).

Definition trace := list event.

Definition is_critical (e : event) : bool :=
  match e with EvCritical _ => true | _ => false end.

Definition is_plugin_load (e : event) : option string :=
  match e with EvPluginLoad f => Some f | _ => None end.

(** [G_STRLOC]: file name and line of the call site. *)
Definition G_STRLOC (line : nat) : string :=
  "chassis-frontend.c:" +:+ pretty line.

(** ** GLib path predicates *)

(** [G_IS_DIR_SEPARATOR(c)]: the slash everywhere, the backslash as well
    on Windows. *)
Definition G_IS_DIR_SEPARATOR (pf : platform) (c : ascii) : bool :=
  if G_OS_WIN32 pf then Ascii.eqb c "\" || Ascii.eqb c "/"
  else Ascii.eqb c "/".

Definition g_ascii_isalpha (c : ascii) : bool :=
  let n := nat_of_ascii c in
  ((65 <=? n)%nat && (n <=? 90)%nat) || ((97 <=? n)%nat && (n <=? 122)%nat).

(** [g_path_is_absolute] of GLib: a leading directory separator, or on
    Windows a drive letter, a colon and a separator. *)
Definition g_path_is_absolute (pf : platform) (file_name : string) : bool :=
  match file_name with
  | EmptyString => false
  | String c0 rest =>
      if G_IS_DIR_SEPARATOR pf c0 then true
      else if G_OS_WIN32 pf then
        match rest with
        | String c1 (String c2 _) =>
            g_ascii_isalpha c0 && Ascii.eqb c1 ":" && G_IS_DIR_SEPARATOR pf c2
        | _ => false
        end
      else false
  end.

(** ** Base directory *)

Module Basedir.
Section Basedir.
Variable pf : platform.
(** [chassis_get_basedir] lives in chassis-path.c; it yields NULL when
    the directory of the program cannot be found. *)
Variable chassis_get_basedir : string -> option string.

(** The result of [chassis_frontend_init_basedir]: the returned [int],
    the content of [*_base_dir] afterwards and the events of the call. *)
Record result := {
  ret : Z;
  base_dir_out : option string;
  events : trace
}.

Definition chassis_frontend_init_basedir
    (prg_name : string) (_base_dir : option string) : result :=
  match _base_dir with
  | Some base_dir =>
      if negb (g_path_is_absolute pf base_dir) then
        {| ret := -1; base_dir_out := _base_dir;
           events := [EvCritical (G_STRLOC 118 +:+
             ": --basedir option must be an absolute path, but was " +:+
             base_dir)] |}
      else
        {| ret := 0; base_dir_out := _base_dir; events := [] |}
  | None =>
      match chassis_get_basedir prg_name with
      | None =>
          {| ret := -1; base_dir_out := None;
             events := [EvGetBasedir prg_name;
                        EvCritical (G_STRLOC 132 +:+
                          ": Failed to get base directory")] |}
      | Some base_dir =>
          {| ret := 0; base_dir_out := Some base_dir;
             events := [EvGetBasedir prg_name] |}
      end
  end.

(** The call asked [chassis_get_basedir] for a directory. *)
Definition attempts_resolution (r : result) : bool :=
  existsb (fun e => match e with EvGetBasedir _ => true | _ => false end)
          (events r).
End Basedir.
End Basedir.

(** ** Plugins *)

Inductive GOptionArg :=
| G_OPTION_ARG_NONE
| G_OPTION_ARG_STRING
| G_OPTION_ARG_INT
| G_OPTION_ARG_FILENAME
| G_OPTION_ARG_STRING_ARRAY
| G_OPTION_ARG_FILENAME_ARRAY.

Global Instance GOptionArg_eq_dec : EqDecision GOptionArg.
Proof. solve_decision. Defined.

(** The address an option writes to ([arg_data]). *)
Definition slot := positive.

(** One [GOptionEntry].  A [short_name] of zero means no short form. *)
Record GOptionEntry := {
  long_name : string;
  short_name : ascii;
  arg : GOptionArg;
  arg_data : slot
}.

(** A loaded plugin: its name and what [chassis_plugin_get_options]
    answers for it (NULL when the plugin exports no options). *)
Record chassis_plugin := {
  name : string;
  chassis_plugin_get_options : option (list GOptionEntry)
}.

Module Loader.
Section Loader.
Variable pf : platform.
(** [chassis_plugin_load] lives in chassis-plugin.c; NULL on failure. *)
Variable chassis_plugin_load : string -> option chassis_plugin.

(** [g_strdup_printf("%s%c%s%s.%s", plugin_dir, G_DIR_SEPARATOR,
    G_MODULE_PREFIX, plugin_names[i], SHARED_LIBRARY_SUFFIX)]. *)
Definition plugin_filename (plugin_dir plugin_name : string) : string :=
  plugin_dir +:+ chr (G_DIR_SEPARATOR pf) +:+ G_MODULE_PREFIX pf +:+
  plugin_name +:+ "." +:+ SHARED_LIBRARY_SUFFIX pf.

Record state := {
  plugins : list chassis_plugin;
  events : trace
}.

Definition emit (e : event) (st : state) : state :=
  {| plugins := plugins st; events := events st ++ [e] |}.

Definition g_ptr_array_add (p : chassis_plugin) (st : state) : state :=
  {| plugins := plugins st ++ [p]; events := events st |}.

(** The loop over [plugin_names[i]] up to the terminating NULL. *)
Fixpoint load_plugins_from (plugin_dir : string) (plugin_names : list string)
    (st : state) : Z * state :=
  match plugin_names with
  | [] => (0, st)
  | n :: rest =>
      if String.eqb "" n then load_plugins_from plugin_dir rest st
      else
        let filename := plugin_filename plugin_dir n in
        let st := emit (EvPluginLoad filename) st in
        match chassis_plugin_load filename with
        | None =>
            (-1, emit (EvCritical "setting --plugin-dir=<dir> might help") st)
        | Some p => load_plugins_from plugin_dir rest (g_ptr_array_add p st)
        end
  end.

(** [plugin_names] is a NULL-terminated [gchar **] or NULL itself. *)
Definition chassis_frontend_load_plugins (plugins0 : list chassis_plugin)
    (plugin_dir : string) (plugin_names : option (list string)) : Z * state :=
  let st := {| plugins := plugins0; events := [] |} in
  match plugin_names with
  | None => (0, st)
  | Some names => load_plugins_from plugin_dir names st
  end.

(** [chassis_frontend_init_plugin_dir]: a plugin directory that is
    already set is kept, otherwise it is derived from the base directory.
    [g_build_filename] of GLib joins the elements of a path. *)
Definition chassis_frontend_init_plugin_dir
    (g_build_filename : list string -> string)
    (_plugin_dir : option string) (base_dir : string) : Z * option string :=
  match _plugin_dir with
  | Some _ => (0, _plugin_dir)
  | None =>
      let plugin_dir :=
        if WIN32 pf then g_build_filename [base_dir; "bin"]
        else g_build_filename [base_dir; "lib"; PACKAGE pf; "plugins"] in
      (0, Some plugin_dir)
  end.

(** The file names handed to [chassis_plugin_load], in call order. *)
Definition load_calls (st : state) : list string :=
  omap is_plugin_load (events st).

(** Every non-empty name of the list can be loaded. *)
Definition all_loadable (plugin_dir : string) (names : list string) : Prop :=
  Forall (fun n => n ≠ "" ->
                   is_Some (chassis_plugin_load (plugin_filename plugin_dir n)))
         names.
End Loader.
End Loader.

(** ** Configuration file *)

(** A [GKeyFile]: group name to key to raw value, and the character that
    separates the elements of a list value. *)
Record GKeyFile := {
  kf_groups : gmap string (gmap string string);
  kf_list_separator : ascii
}.

Definition g_key_file_new : GKeyFile :=
  {| kf_groups := ∅; kf_list_separator := ";"%char |}.

Definition g_key_file_set_list_separator (kf : GKeyFile) (c : ascii) : GKeyFile :=
  {| kf_groups := kf_groups kf; kf_list_separator := c |}.

Module ConfigFile.
Section ConfigFile.
(** [chassis_filemode_check] lives in chassis-filemode.c; zero means the
    file is safe to read. *)
Variable chassis_filemode_check : string -> Z.
(** [g_key_file_load_from_file] of GLib fills the key file it is given,
    or fails with a message. *)
Variable g_key_file_load_from_file : GKeyFile -> string -> GKeyFile + string.

Definition chassis_frontend_open_config_file (filename : string)
    : option GKeyFile * trace :=
  if negb (chassis_filemode_check filename =? 0) then
    (None, [EvFilemodeCheck filename])
  else
    let keyfile := g_key_file_new in
    let keyfile := g_key_file_set_list_separator keyfile ","%char in
    match g_key_file_load_from_file keyfile filename with
    | inr message =>
        (None, [EvFilemodeCheck filename; EvKeyFileLoad filename;
                EvCritical (G_STRLOC 399 +:+ ": loading configuration from " +:+
                            filename +:+ " failed: " +:+ message)])
    | inl keyfile =>
        (Some keyfile, [EvFilemodeCheck filename; EvKeyFileLoad filename])
    end.

(** Position of the first event satisfying [f], if any. *)
Fixpoint first_index (f : event -> bool) (tr : trace) : option nat :=
  match tr with
  | [] => None
  | e :: tr' => if f e then Some O else S <$> first_index f tr'
  end.

Definition is_filemode_check (e : event) : bool :=
  match e with EvFilemodeCheck _ => true | _ => false end.

Definition is_key_file_load (e : event) : bool :=
  match e with EvKeyFileLoad _ => true | _ => false end.
End ConfigFile.
End ConfigFile.

(** ** Environment of the embedded Lua *)

Module Lua.
Section Lua.
Variable pf : platform.
(** The process environment and the C library calls on it.  Nothing is
    assumed about them: [g_setenv] may fail and [getenv] need not return
    what was set. *)
Variable environ : Type.
Variable g_setenv : environ -> string -> string -> bool -> bool * environ.
Variable _putenv_s : environ -> string -> string -> Z * environ.
Variable getenv : environ -> string -> option string.
Variable g_getenv : environ -> string -> option string.
(** The text of [g_strerror(errno)] at the time of the call. *)
Variable g_strerror_errno : environ -> string.
Variable g_build_filename : list string -> string.

(** From lua.h. *)
Definition LUA_PATH : string := "LUA_PATH".
Definition LUA_CPATH : string := "LUA_CPATH".

Definition setting_failed (line : nat) (key value reason : string) : event :=
  EvCritical (G_STRLOC line +:+ ": setting " +:+ key +:+ " = " +:+ value +:+
              " failed: " +:+ reason).

Definition chassis_frontend_lua_setenv (key value : string) (env : environ)
    : Z * environ * trace :=
  let '(r, env) :=
    if _WIN32 pf then _putenv_s env key value
    else let '(ok, env) := g_setenv env key value true in
         (if ok then 0 else -1, env) in
  let checks :=
    if r =? 0 then
      match getenv env key with
      | None => [setting_failed 162 key value "(getenv() == NULL)"]
      | Some v =>
          if negb (String.eqb v value) then
            [setting_failed 165 key value ("(getenv() == " +:+ v +:+ ")")]
          else []
      end
    else [] in
  (r, env, EvSetenv key value :: checks).

Definition chassis_frontend_get_default_lua_path (base_dir prg_name : string)
    : string :=
  g_build_filename [base_dir; "lib"; prg_name; "lua"; "?.lua"].

Definition chassis_frontend_get_default_lua_cpath (base_dir prg_name : string)
    : string :=
  if _WIN32 pf then
    g_build_filename [base_dir; "bin"; "lua-?." +:+ G_MODULE_SUFFIX pf]
  else
    g_build_filename [base_dir; "lib"; prg_name; "lua";
                      "?." +:+ G_MODULE_SUFFIX pf].

(** The body shared by both functions once the variable, the default
    value and the lines of the two diagnostics are fixed. *)
Definition init_lua_var (var : string) (default : string) (l1 l2 : nat)
    (set_path : option string) (env : environ) : Z * environ * trace :=
  match set_path with
  | Some set_path =>
      let '(r, env', evs) := chassis_frontend_lua_setenv var set_path env in
      if negb (r =? 0) then
        (0, env', evs ++ [setting_failed l1 var set_path (g_strerror_errno env')])
      else (0, env', evs)
  | None =>
      match g_getenv env var with
      | Some _ => (0, env, [])
      | None =>
          let path := default in
          let '(r, env', evs) := chassis_frontend_lua_setenv var path env in
          if negb (r =? 0) then
            (0, env', evs ++ [setting_failed l2 var path (g_strerror_errno env')])
          else (0, env', evs)
      end
  end.

Definition chassis_frontend_init_lua_path (set_path : option string)
    (base_dir prg_name : string) (env : environ) : Z * environ * trace :=
  init_lua_var LUA_PATH
    (chassis_frontend_get_default_lua_path base_dir prg_name) 209 217
    set_path env.

Definition chassis_frontend_init_lua_cpath (set_path : option string)
    (base_dir prg_name : string) (env : environ) : Z * environ * trace :=
  init_lua_var LUA_CPATH
    (chassis_frontend_get_default_lua_cpath base_dir prg_name) 234 242
    set_path env.
End Lua.
End Lua.

(** ** PID file *)

Record GError := {
  code : Z;
  message : string
}.

(** [g_set_error] on a [GError **]: nothing for a NULL location, a warning
    and no change when an error is already stored. *)
Definition g_set_error (gerr : option (option GError)) (e : GError)
    : option (option GError) :=
  match gerr with
  | None => None
  | Some None => Some (Some e)
  | Some (Some old) => Some (Some old)
  end.

Module Pidfile.
Record file := {
  f_mode : Z;
  f_data : string
}.

Section Pidfile.
(** The operating system: whether [open] and [write] fail and with which
    [errno], the creation mask and the process id. *)
Variable open_errno : gmap string file -> string -> option Z.
Variable write_result : gmap string file -> string -> string -> Z * Z.
Variable umask : Z.
Variable getpid : Z.
Variable g_strerror : Z -> string.
Variable g_file_error_from_errno : Z -> Z.

(** [open(path, O_WRONLY|O_TRUNC|O_CREAT, mode)] when it succeeds: an
    existing file is emptied, a missing one is created empty.  The file
    system is a map from path to file: what the call does to the file
    behind [path] is modelled, links and other names of the same file are
    not. *)
Definition open_trunc_creat (path : string) (mode : Z)
    (fs : gmap string file) : gmap string file :=
  match fs !! path with
  | Some f => <[path := {| f_mode := f_mode f; f_data := "" |}]> fs
  | None =>
      <[path := {| f_mode := Z.land mode (Z.lnot umask); f_data := "" |}]> fs
  end.

Fixpoint string_take (n : nat) (s : string) : string :=
  match n, s with
  | S n', String c s' => String c (string_take n' s')
  | _, _ => ""
  end.

(** [write(fd, buf, len)] on the freshly opened, empty file: [n] bytes
    of [buf] arrive in the file when the call returns [n >= 0]. *)
Definition write_fd (path buf : string) (n : Z)
    (fs : gmap string file) : gmap string file :=
  match fs !! path with
  | Some f =>
      <[path := {| f_mode := f_mode f;
                   f_data := string_take (Z.to_nat n) buf |}]> fs
  | None => fs
  end.

Definition chassis_frontend_write_pidfile (pid_file : string)
    (gerr : option (option GError)) (fs : gmap string file)
    : Z * option (option GError) * gmap string file :=
  match open_errno fs pid_file with
  | Some errno =>
      (-1,
       g_set_error gerr
         {| code := g_file_error_from_errno errno;
            message := G_STRLOC 458 +:+ ": open(" +:+ pid_file +:+
                       ") failed: " +:+ g_strerror errno |},
       fs)
  | None =>
      let fs := open_trunc_creat pid_file 384 fs in
      let pid_str := pretty getpid in
      let '(n, errno) := write_result fs pid_file pid_str in
      if n <? 0 then
        (-1,
         g_set_error gerr
           {| code := g_file_error_from_errno errno;
              message := G_STRLOC 471 +:+ ": write(" +:+ pid_file +:+
                         ") of " +:+ pid_str +:+ " failed: " +:+
                         g_strerror errno |},
         fs)
      else (0, gerr, write_fd pid_file pid_str n fs)
  end.
End Pidfile.
End Pidfile.

(** ** GLib option parser *)

(** [g_option_context_parse] belongs to GLib, not to the chassis.  The
    model below follows goption.c for what the chassis uses: long options
    with [=value] or the value in the next argument, the
    [--<group>-<option>] aliases, the help options, letters behind a
    single dash, the [--] separator, and the undoing of every write when
    the parse fails.  Callback options, optional arguments, entry flags,
    [G_OPTION_REMAINING] and strict POSIX mode are left out: no entry of
    the chassis uses them. *)

(** What a target slot holds once it has been written.  A slot that is
    absent from the memory still has its initial NULL or zero. *)
Inductive value :=
| VBool (b : bool)
| VInt (n : Z)
| VStr (s : string)
| VStrv (l : list string).

Abbreviation memory := (gmap slot value).

Record GOptionGroup := {
  group_name : string;
  group_description : string;
  group_help_description : string;
  group_entries : list GOptionEntry
}.

Record GOptionContext := {
  main_entries : list GOptionEntry;
  groups : list GOptionGroup;
  help_enabled : bool;
  ignore_unknown : bool
}.

Definition g_option_context_new : GOptionContext :=
  {| main_entries := []; groups := []; help_enabled := true;
     ignore_unknown := false |}.

Definition g_option_context_add_main_entries (ctx : GOptionContext)
    (entries : list GOptionEntry) : GOptionContext :=
  {| main_entries := main_entries ctx ++ entries; groups := groups ctx;
     help_enabled := help_enabled ctx; ignore_unknown := ignore_unknown ctx |}.

Definition g_option_context_add_group (ctx : GOptionContext)
    (grp : GOptionGroup) : GOptionContext :=
  {| main_entries := main_entries ctx; groups := groups ctx ++ [grp];
     help_enabled := help_enabled ctx; ignore_unknown := ignore_unknown ctx |}.

Definition g_option_context_set_help_enabled (ctx : GOptionContext)
    (b : bool) : GOptionContext :=
  {| main_entries := main_entries ctx; groups := groups ctx;
     help_enabled := b; ignore_unknown := ignore_unknown ctx |}.

Definition g_option_context_set_ignore_unknown_options (ctx : GOptionContext)
    (b : bool) : GOptionContext :=
  {| main_entries := main_entries ctx; groups := groups ctx;
     help_enabled := help_enabled ctx; ignore_unknown := b |}.

(** The three ways [g_option_context_parse] ends: TRUE with the arguments
    it left in [argv] and the slots it wrote; FALSE with an error, every
    write undone and [argv] as it was; or a help option printed the help
    text and the process exited with status 0. *)
Inductive parse_result :=
| ParseOk (argv : list string) (mem : memory)
| ParseFailed (code : GOptionError) (message : string)
| ParseHelp.

Definition parse_error (r : parse_result) : option GOptionError :=
  match r with
  | ParseFailed code _ => Some code
  | _ => None
  end.

(** The arrays a call of [g_option_context_parse] has allocated so far,
    by slot.  GLib keeps them in its list of changes: the first value of
    an array option in a call starts a new array, further values in the
    same call are appended to it. *)
Abbreviation changes := (gmap slot (list string)).

(** One option looked up in one or several groups. *)
Inductive opt_step :=
| NotParsed
| Parsed (used_next : bool) (mem : memory) (ch : changes)
| Failed (code : GOptionError) (message : string).

Definition step_error (r : opt_step) : option GOptionError :=
  match r with
  | Failed code _ => Some code
  | _ => None
  end.

Fixpoint string_drop (n : nat) (s : string) : string :=
  match n, s with
  | O, _ => s
  | S n', String _ s' => string_drop n' s'
  | S _, EmptyString => ""
  end.

Fixpoint string_first (n : nat) (s : string) : string :=
  match n, s with
  | S n', String c s' => String c (string_first n' s')
  | _, _ => ""
  end.

(** [strchr(s, c) - s], when [c] occurs in [s]. *)
Fixpoint strchr (c : ascii) (s : string) : option nat :=
  match s with
  | EmptyString => None
  | String c' s' => if Ascii.eqb c c' then Some O else S <$> strchr c s'
  end.

Definition starts_with_dash (s : string) : bool :=
  match s with
  | String c _ => Ascii.eqb c "-"
  | EmptyString => false
  end.

(** How the parser reads one element of [argv]: [--] alone, [--] and a
    name, one dash and letters, or anything else. *)
Inductive arg_class :=
| Separator
| LongOption (arg : string)
| ShortOptions (letters : string)
| Plain.

Definition classify (a : string) : arg_class :=
  match a with
  | String c0 (String c1 tl) =>
      if Ascii.eqb c0 "-" then
        if Ascii.eqb c1 "-" then
          match tl with
          | EmptyString => Separator
          | _ => LongOption tl
          end
        else ShortOptions (String c1 tl)
      else Plain
  | _ => Plain
  end.

Definition NO_ARG (e : GOptionEntry) : bool :=
  bool_decide (arg e = G_OPTION_ARG_NONE).

Module GOption.
Section GOption.
Variable pf : platform.
(** [strtol(arg, &end, 0)] as GLib's [parse_int] uses it: the number
    when the whole non-empty text is one and fits a [gint]. *)
Variable strtol : string -> option Z.
(** [g_locale_to_utf8] of GLib: the text in UTF-8, or NULL when it holds
    a byte sequence that is not valid in the locale. *)
Variable g_locale_to_utf8 : string -> option string.

(** The value of a string option: converted from the locale. *)
Definition string_value (v : string) : option string := g_locale_to_utf8 v.

(** The value of a file name option: converted on Windows, copied as it
    is elsewhere. *)
Definition filename_value (v : string) : option string :=
  if G_OS_WIN32 pf then g_locale_to_utf8 v else Some v.

Definition conversion_failed : opt_step :=
  Failed G_CONVERT_ERROR_ILLEGAL_SEQUENCE
         "Invalid byte sequence in conversion input".

(** [parse_arg]: store the value of one recognised option. *)
Definition parse_arg (e : GOptionEntry) (v : option string)
    (option_name : string) (mem : memory) (ch : changes) : opt_step :=
  match arg e with
  | G_OPTION_ARG_NONE => Parsed false (<[arg_data e := VBool true]> mem) ch
  | G_OPTION_ARG_STRING =>
      match string_value (default "" v) with
      | Some data => Parsed false (<[arg_data e := VStr data]> mem) ch
      | None => conversion_failed
      end
  | G_OPTION_ARG_FILENAME =>
      match filename_value (default "" v) with
      | Some data => Parsed false (<[arg_data e := VStr data]> mem) ch
      | None => conversion_failed
      end
  | G_OPTION_ARG_STRING_ARRAY =>
      match string_value (default "" v) with
      | Some data =>
          let array := default [] (ch !! arg_data e) ++ [data] in
          Parsed false (<[arg_data e := VStrv array]> mem)
                 (<[arg_data e := array]> ch)
      | None => conversion_failed
      end
  | G_OPTION_ARG_FILENAME_ARRAY =>
      match filename_value (default "" v) with
      | Some data =>
          let array := default [] (ch !! arg_data e) ++ [data] in
          Parsed false (<[arg_data e := VStrv array]> mem)
                 (<[arg_data e := array]> ch)
      | None => conversion_failed
      end
  | G_OPTION_ARG_INT =>
      match strtol (default "" v) with
      | Some n => Parsed false (<[arg_data e := VInt n]> mem) ch
      | None =>
          Failed G_OPTION_ERROR_BAD_VALUE
            ("Cannot parse integer value '" +:+ default "" v +:+ "' for " +:+
             option_name)
      end
  end.

Definition with_next (r : opt_step) : opt_step :=
  match r with
  | Parsed _ mem ch => Parsed true mem ch
  | r => r
  end.

(** [parse_long_option] on the entries of one group: [arg] is the
    argument without its two dashes, [next] the argument after it. *)
Fixpoint parse_long_option (entries : list GOptionEntry) (arg : string)
    (next : option string) (mem : memory) (ch : changes) : opt_step :=
  match entries with
  | [] => NotParsed
  | e :: entries' =>
      let option_name := "--" +:+ long_name e in
      if NO_ARG e && String.eqb arg (long_name e) then
        parse_arg e None option_name mem ch
      else
        let len := String.length (long_name e) in
        if String.prefix (long_name e) arg then
          match String.get len arg with
          | Some c =>
              if Ascii.eqb c "=" then
                parse_arg e (Some (string_drop (S len) arg)) option_name mem ch
              else parse_long_option entries' arg next mem ch
          | None =>
              match next with
              | Some v => with_next (parse_arg e (Some v) option_name mem ch)
              | None =>
                  Failed G_OPTION_ERROR_BAD_VALUE
                    ("Missing argument for " +:+ option_name)
              end
          end
        else parse_long_option entries' arg next mem ch
  end.

(** [parse_short_option] on the entries of one group.  [next_used]
    says that an earlier letter of the same argument already took the
    next argument as its value. *)
Fixpoint parse_short_option (entries : list GOptionEntry) (c : ascii)
    (next : option string) (next_used : bool) (mem : memory)
    (ch : changes) : opt_step :=
  match entries with
  | [] => NotParsed
  | e :: entries' =>
      if Ascii.eqb c (short_name e) && negb (Ascii.eqb c zero) then
        let option_name := "-" +:+ chr c in
        if NO_ARG e then parse_arg e None option_name mem ch
        else if next_used then
          Failed G_OPTION_ERROR_FAILED ("Error parsing option " +:+ option_name)
        else
          match next with
          | Some v => with_next (parse_arg e (Some v) option_name mem ch)
          | None =>
              Failed G_OPTION_ERROR_BAD_VALUE
                ("Missing argument for " +:+ option_name)
          end
      else parse_short_option entries' c next next_used mem ch
  end.

(** Try the groups in order until one parses the option. *)
Fixpoint first_group (try : GOptionGroup -> opt_step)
    (gs : list GOptionGroup) : opt_step :=
  match gs with
  | [] => NotParsed
  | g :: gs' =>
      match try g with
      | NotParsed => first_group try gs'
      | r => r
      end
  end.

(** The [--<group>-<option>] form: the text before the first dash
    selects the groups whose name starts with it. *)
Definition lookup_alias (ctx : GOptionContext) (arg : string)
    (next : option string) (mem : memory) (ch : changes) : opt_step :=
  match strchr "-" arg with
  | Some (S d') =>
      let d := S d' in
      first_group
        (fun g =>
           if String.prefix (string_first d arg) (group_name g) then
             parse_long_option (group_entries g) (string_drop (S d) arg)
                               next mem ch
           else NotParsed)
        (groups ctx)
  | _ => NotParsed
  end.

(** A long option: the main group, then the groups, then the aliases. *)
Definition lookup_long (ctx : GOptionContext) (arg : string)
    (next : option string) (mem : memory) (ch : changes) : opt_step :=
  match parse_long_option (main_entries ctx) arg next mem ch with
  | NotParsed =>
      match first_group
              (fun g => parse_long_option (group_entries g) arg next mem ch)
              (groups ctx) with
      | NotParsed => lookup_alias ctx arg next mem ch
      | r => r
      end
  | r => r
  end.

Definition lookup_short (ctx : GOptionContext) (c : ascii)
    (next : option string) (next_used : bool) (mem : memory)
    (ch : changes) : opt_step :=
  match parse_short_option (main_entries ctx) c next next_used mem ch with
  | NotParsed =>
      first_group
        (fun g => parse_short_option (group_entries g) c next next_used mem ch)
        (groups ctx)
  | r => r
  end.

Definition help_requested_long (ctx : GOptionContext) (arg : string) : bool :=
  help_enabled ctx &&
  (String.eqb arg "help" || String.eqb arg "help-all" ||
   (String.prefix "help-" arg &&
    existsb (fun g => String.eqb (string_drop 5 arg) (group_name g))
            (groups ctx))).

Definition context_has_h_entry (ctx : GOptionContext) : bool :=
  existsb (fun e => Ascii.eqb (short_name e) "h")
          (main_entries ctx ++ flat_map group_entries (groups ctx)).

Definition help_requested_short (ctx : GOptionContext) (c : ascii) : bool :=
  help_enabled ctx &&
  (Ascii.eqb c "?" || (Ascii.eqb c "h" && negb (context_has_h_entry ctx))).

(** The letters of one [-abc] argument. *)
Inductive cluster_result :=
| ClusterHelp
| ClusterFailed (code : GOptionError) (message : string)
| ClusterDone (mem : memory) (ch : changes) (next_used : bool)
              (leftover : string) (last_parsed : bool).

Definition cluster_error (r : cluster_result) : option GOptionError :=
  match r with
  | ClusterFailed code _ => Some code
  | _ => None
  end.

Fixpoint parse_cluster (ctx : GOptionContext) (letters : string)
    (next : option string) (next_used : bool) (mem : memory) (ch : changes)
    (leftover : string) (last_parsed : bool) : cluster_result :=
  match letters with
  | EmptyString => ClusterDone mem ch next_used leftover last_parsed
  | String c letters' =>
      if help_requested_short ctx c then ClusterHelp
      else
        match lookup_short ctx c next next_used mem ch with
        | Failed code msg => ClusterFailed code msg
        | Parsed used mem' ch' =>
            parse_cluster ctx letters' next (next_used || used) mem' ch'
                          leftover true
        | NotParsed =>
            if ignore_unknown ctx then
              parse_cluster ctx letters' next next_used mem ch
                            (leftover +:+ chr c) false
            else ClusterDone mem ch next_used leftover false
        end
  end.

(** The loop over [argv[1..]].  [kept] collects the arguments that stay
    in [argv]; [has_unknown] is GLib's flag of the same name. *)
Fixpoint parse_loop (ctx : GOptionContext) (args : list string)
    (has_unknown : bool) (mem : memory) (ch : changes) (kept : list string)
    : parse_result :=
  match args with
  | [] => ParseOk kept mem
  | a :: rest =>
      match classify a with
      | Separator =>
          (* "--" ends the options; it stays only when something after
             it could be mistaken for an option *)
          let keep_sep :=
            existsb (fun x => has_unknown || starts_with_dash x) rest in
          ParseOk (kept ++ (if keep_sep then ["--"] else []) ++ rest) mem
      | LongOption arg =>
          if help_requested_long ctx arg then ParseHelp
          else
            match lookup_long ctx arg (head rest) mem ch with
            | Failed code msg => ParseFailed code msg
            | Parsed used mem' ch' =>
                if used then
                  match rest with
                  | _ :: rest' => parse_loop ctx rest' has_unknown mem' ch' kept
                  | [] => ParseOk kept mem'
                  end
                else parse_loop ctx rest has_unknown mem' ch' kept
            | NotParsed =>
                if ignore_unknown ctx then
                  parse_loop ctx rest has_unknown mem ch (kept ++ [a])
                else
                  ParseFailed G_OPTION_ERROR_UNKNOWN_OPTION
                              ("Unknown option " +:+ a)
            end
      | ShortOptions letters =>
          match parse_cluster ctx letters (head rest) false mem ch "" false with
          | ClusterHelp => ParseHelp
          | ClusterFailed code msg => ParseFailed code msg
          | ClusterDone mem' ch' used leftover last_parsed =>
              if ignore_unknown ctx || last_parsed then
                let kept' :=
                  match leftover with
                  | EmptyString => kept
                  | _ => kept ++ ["-" +:+ leftover]
                  end in
                let has_unknown' := has_unknown || negb last_parsed in
                if used then
                  match rest with
                  | _ :: rest' =>
                      parse_loop ctx rest' has_unknown' mem' ch' kept'
                  | [] => ParseOk kept' mem'
                  end
                else parse_loop ctx rest has_unknown' mem' ch' kept'
              else
                ParseFailed G_OPTION_ERROR_UNKNOWN_OPTION
                            ("Unknown option " +:+ a)
          end
      | Plain => parse_loop ctx rest has_unknown mem ch (kept ++ [a])
      end
  end.

(** [g_option_context_parse]: [argv[0]] is the program name and is not
    an option; no array has been allocated when the call starts. *)
Definition g_option_context_parse (ctx : GOptionContext)
    (argv : list string) (mem : memory) : parse_result :=
  match argv with
  | [] => ParseOk [] mem
  | prg :: args =>
      match parse_loop ctx args false mem ∅ [] with
      | ParseOk rest mem' => ParseOk (prg :: rest) mem'
      | r => r
      end
  end.
End GOption.
End GOption.

(** ** Options of the chassis *)

(** A [chassis_options_t] is the list of the options added so far. *)
Definition chassis_options_new : list GOptionEntry := [].

(** Modelled from the spec: [chassis_options_add] of chassis-options.c,
    which is not part of this file.  The registry is "an ordered
    collection of option descriptors", so adding appends. *)
Definition chassis_options_add (opts : list GOptionEntry) (long : string)
    (short : ascii) (kind : GOptionArg) (data : slot) : list GOptionEntry :=
  opts ++ [{| long_name := long; short_name := short; arg := kind;
              arg_data := data |}].

(** Modelled from the spec: [chassis_options_to_g_option_entries] of
    chassis-options.c, the same descriptors in the same order. *)
Definition chassis_options_to_g_option_entries (opts : list GOptionEntry)
    : list GOptionEntry := opts.

Definition chassis_options_set_cmdline_only_options (opts : list GOptionEntry)
    (print_version config_file : slot) : list GOptionEntry :=
  let opts := chassis_options_add opts "version" "V" G_OPTION_ARG_NONE
                                  print_version in
  chassis_options_add opts "defaults-file" zero G_OPTION_ARG_STRING config_file.

(** ** Overlay of the configuration file *)

Module Keyfile.
Section Keyfile.
Variable pf : platform.
(** The conversion of a raw value of the key file to the kind of the
    option; [None] when the text is not of that kind. *)
Variable keyfile_value : GOptionArg -> ascii -> string -> option value.

(** Modelled from the spec: the loop of [chassis_keyfile_to_options] of
    chassis-keyfile.c, which is not part of this file.  "Values not
    supplied on the command line and present in the matching config-file
    section are copied into the target slot"; "a value supplied on the
    command line is never overwritten by the config file".  A value that
    does not convert ends the overlay with a non-zero result. *)
Fixpoint keyfile_to_options_from (section : gmap string string) (sep : ascii)
    (config_entries : list GOptionEntry) (mem : memory) : Z * memory :=
  match config_entries with
  | [] => (0, mem)
  | e :: config_entries' =>
      match mem !! arg_data e with
      | Some _ => keyfile_to_options_from section sep config_entries' mem
      | None =>
          match section !! long_name e with
          | None => keyfile_to_options_from section sep config_entries' mem
          | Some raw =>
              match keyfile_value (arg e) sep raw with
              | Some v =>
                  keyfile_to_options_from section sep config_entries'
                                          (<[arg_data e := v]> mem)
              | None => (-1, mem)
              end
          end
      end
  end.

(** Modelled from the spec: [chassis_keyfile_to_options] of
    chassis-keyfile.c, the overlay above applied to the section
    [ini_group_name] of the key file; a file without that section changes
    nothing. *)
Definition chassis_keyfile_to_options (keyfile : GKeyFile)
    (ini_group_name : string) (config_entries : list GOptionEntry)
    (mem : memory) : Z * memory :=
  match kf_groups keyfile !! ini_group_name with
  | None => (0, mem)
  | Some section =>
      keyfile_to_options_from section (kf_list_separator keyfile)
                              config_entries mem
  end.

(** Modelled from the spec: [normalize_path], "returns value unchanged
    if already absolute, else joins base_dir with value using the
    platform path separator". *)
Definition normalize_path (value base_dir : string) : string :=
  if g_path_is_absolute pf value then value
  else base_dir +:+ chr (G_DIR_SEPARATOR pf) +:+ value.

(** Modelled from the spec: [chassis_keyfile_resolve_path] of
    chassis-keyfile.c, which is not part of this file.  "Any
    OptionDescriptor value semantically typed as a filesystem path is,
    after merge, rewritten to an absolute path anchored at the base
    directory if it was relative". *)
Fixpoint chassis_keyfile_resolve_path (base_dir : string)
    (config_entries : list GOptionEntry) (mem : memory) : memory :=
  match config_entries with
  | [] => mem
  | e :: config_entries' =>
      let mem' :=
        match arg e, mem !! arg_data e with
        | G_OPTION_ARG_FILENAME, Some (VStr v) =>
            <[arg_data e := VStr (normalize_path v base_dir)]> mem
        | G_OPTION_ARG_FILENAME_ARRAY, Some (VStrv l) =>
            <[arg_data e := VStrv ((fun v => normalize_path v base_dir) <$> l)]> mem
        | _, _ => mem
        end in
      chassis_keyfile_resolve_path base_dir config_entries' mem'
  end.
End Keyfile.
End Keyfile.

(** ** The two parsing stages *)

(** How a function that may call [exit] ends. *)
Inductive outcome :=
| Returned (r : Z)
| Exited (status : Z).

Module Frontend.
(** What the caller shares with the functions: the option context, the
    argument vector behind [argc_p] and [argv_p], the target slots and
    the events so far. *)
Record state := {
  option_ctx : GOptionContext;
  argv : list string;
  mem : memory;
  events : trace
}.

Section Frontend.
Variable pf : platform.
Variable strtol : string -> option Z.
Variable g_locale_to_utf8 : string -> option string.
Variable keyfile_value : GOptionArg -> ascii -> string -> option value.

Definition set_ctx (ctx : GOptionContext) (st : state) : state :=
  {| option_ctx := ctx; argv := argv st; mem := mem st; events := events st |}.

Definition set_parsed (av : list string) (m : memory) (st : state) : state :=
  {| option_ctx := option_ctx st; argv := av; mem := m; events := events st |}.

Definition set_mem (m : memory) (st : state) : state :=
  {| option_ctx := option_ctx st; argv := argv st; mem := m;
     events := events st |}.

Definition emit (e : event) (st : state) : state :=
  {| option_ctx := option_ctx st; argv := argv st; mem := mem st;
     events := events st ++ [e] |}.

Definition chassis_frontend_init_base_options (print_version config_file : slot)
    (st : state) : outcome * state :=
  let opts := chassis_options_new in
  let opts := chassis_options_set_cmdline_only_options opts print_version
                                                       config_file in
  let base_main_entries := chassis_options_to_g_option_entries opts in
  let ctx := g_option_context_add_main_entries (option_ctx st)
                                               base_main_entries in
  let ctx := g_option_context_set_help_enabled ctx false in
  let ctx := g_option_context_set_ignore_unknown_options ctx true in
  let res := GOption.g_option_context_parse pf strtol g_locale_to_utf8 ctx (argv st) (mem st) in
  let st := emit (EvOptionParse (ignore_unknown ctx) (argv st) (parse_error res))
                 (set_ctx ctx st) in
  match res with
  | ParseOk av m => (Returned 0, set_parsed av m st)
  | ParseFailed _ _ => (Returned (-1), st)
  | ParseHelp => (Exited 0, st)
  end.

(** The group a plugin's options are registered under. *)
Definition plugin_option_group (p : chassis_plugin)
    (config_entries : list GOptionEntry) : GOptionGroup :=
  {| group_name := name p;
     group_description := name p +:+ "-module";
     group_help_description := "Show options for the " +:+ name p +:+ "-module";
     group_entries := config_entries |}.

(** The loop over [plugins->pdata[i]]. *)
Fixpoint init_plugins_from (plugins : list chassis_plugin)
    (keyfile : option GKeyFile) (base_dir : string) (st : state)
    : outcome * state :=
  match plugins with
  | [] => (Returned 0, st)
  | p :: plugins' =>
      match chassis_plugin_get_options p with
      | None => init_plugins_from plugins' keyfile base_dir st
      | Some config_entries =>
          let option_grp := plugin_option_group p config_entries in
          let ctx := g_option_context_add_group (option_ctx st) option_grp in
          let res := GOption.g_option_context_parse pf strtol g_locale_to_utf8 ctx (argv st)
                                                    (mem st) in
          let st := emit (EvOptionParse (ignore_unknown ctx) (argv st)
                                        (parse_error res))
                         (set_ctx ctx st) in
          match res with
          | ParseHelp => (Exited 0, st)
          | ParseFailed _ message => (Returned (-1), emit (EvCritical message) st)
          | ParseOk av m =>
              let st := set_parsed av m st in
              let overlay :=
                match keyfile with
                | Some kf =>
                    let '(r, m') :=
                      Keyfile.chassis_keyfile_to_options keyfile_value kf
                        "mysql-proxy" config_entries (mem st) in
                    (r, emit (EvKeyfileToOptions "mysql-proxy") (set_mem m' st))
                | None => (0, st)
                end in
              let '(r, st) := overlay in
              if negb (r =? 0) then (Returned (-1), st)
              else
                let m' := Keyfile.chassis_keyfile_resolve_path pf base_dir
                            config_entries (mem st) in
                init_plugins_from plugins' keyfile base_dir
                  (emit (EvResolvePath base_dir) (set_mem m' st))
          end
      end
  end.

Definition chassis_frontend_init_plugins (plugins : list chassis_plugin)
    (keyfile : option GKeyFile) (base_dir : string) (st : state)
    : outcome * state :=
  init_plugins_from plugins keyfile base_dir st.

(** The sections [chassis_keyfile_to_options] was asked to read. *)
Definition sections_consulted (tr : trace) : list string :=
  omap (fun e => match e with EvKeyfileToOptions g => Some g | _ => None end)
       tr.

(** No recorded parsing pass was strict, and none failed on an unknown
    option. *)
Definition tolerant_pass (e : event) : bool :=
  match e with
  | EvOptionParse ign _ failed =>
      ign && negb (bool_decide (failed = Some G_OPTION_ERROR_UNKNOWN_OPTION))
  | _ => true
  end.
End Frontend.
End Frontend.

(** ** GLib start-up checks *)

Module Glib.
(** A GLib version: major, minor and micro number. *)
Record version := {
  major : Z;
  minor : Z;
  micro : Z
}.

(** The macro [GLIB_CHECK_VERSION(major, minor, micro)] of GLib, on the
    version of the headers the program was compiled with. *)
Definition GLIB_CHECK_VERSION (headers : version) (maj min mic : Z) : bool :=
  (major headers >? maj) ||
  ((major headers =? maj) && (minor headers >? min)) ||
  ((major headers =? maj) && (minor headers =? min) && (micro headers >=? mic)).

Definition show_version (v : version) : string :=
  pretty (major v) +:+ "." +:+ pretty (minor v) +:+ "." +:+ pretty (micro v).

(** The result of [chassis_frontend_init_glib]: the returned [int],
    whether [g_thread_init] was called, and the diagnostics. *)
Record result := {
  ret : Z;
  thread_init : bool;
  events : trace
}.

Section Glib.
(** The version of the headers ([GLIB_MAJOR_VERSION] and so on) and of
    the library loaded at run time ([glib_major_version] and so on). *)
Variable headers lib : version.
(** [glib_check_version] of GLib: NULL when the library is compatible
    with the version asked for, else a text that says why not. *)
Variable glib_check_version : Z -> Z -> Z -> option string.
Variable g_module_supported : bool.

Definition chassis_frontend_init_glib : result :=
  if negb (GLIB_CHECK_VERSION headers 2 6 0) then
    {| ret := -1; thread_init := false;
       events := [EvCritical
                    ("the glib header are too old, need at least 2.6.0, got: "
                     +:+ show_version headers)] |}
  else
    match glib_check_version (major headers) (minor headers) (micro headers) with
    | Some check_str =>
        {| ret := -1; thread_init := false;
           events := [EvCritical
                        (check_str +:+ ", got: lib=" +:+ show_version lib +:+
                         ", headers=" +:+ show_version headers)] |}
    | None =>
        if negb g_module_supported then
          {| ret := -1; thread_init := false;
             events := [EvCritical
                          "loading modules is not supported on this platform"] |}
        else {| ret := 0; thread_init := true; events := [] |}
    end.
End Glib.
End Glib.

(** ** Concrete inputs *)

(** A plugin loader that knows the files of a table and fails on every
    other file name. *)
Definition load_from_table (table : list (string * chassis_plugin))
    (filename : string) : option chassis_plugin :=
  snd <$> List.find (fun kv => String.eqb (fst kv) filename) table.

Definition plugin_foo : chassis_plugin :=
  {| name := "foo"; chassis_plugin_get_options := None |}.

Definition plugin_a : chassis_plugin :=
  {| name := "a"; chassis_plugin_get_options := None |}.

Definition plugins_dir : string := "/usr/lib/mysql-proxy/plugins".

Definition only_foo : string -> option chassis_plugin :=
  load_from_table [("/usr/lib/mysql-proxy/plugins/libfoo.so", plugin_foo)].

Definition only_a : string -> option chassis_plugin :=
  load_from_table [("/usr/lib/mysql-proxy/plugins/liba.so", plugin_a)].


(** A [chassis_get_basedir] that knows one installation. *)
Definition basedir_of (prg_name : string) : option string :=
  if String.eqb prg_name "/opt/mysql-proxy/bin/mysql-proxy"
  then Some "/opt/mysql-proxy" else None.

(** A permission check that rejects one file, and a key-file parser that
    rejects another and reads one group from every other file. *)
Definition filemode_check_example (filename : string) : Z :=
  if String.eqb filename "/etc/world-writable.cnf" then -1 else 0.

Definition key_file_load_example (kf : GKeyFile) (filename : string)
    : GKeyFile + string :=
  if String.eqb filename "/etc/broken.cnf" then
    inr "Key file contains line 'x' which is not a key-value pair, group, or comment"
  else
    inl {| kf_groups := {[ "mysql-proxy" := {[ "proxy-address" := ":3306" ]} ]};
           kf_list_separator := kf_list_separator kf |}.

(** An environment in which [g_setenv] always fails, and one in which it
    reports success although nothing can be read back. *)
Definition setenv_fails (env : gmap string string) (key value : string)
    (overwrite : bool) : bool * gmap string string := (false, env).

Definition setenv_lost (env : gmap string string) (key value : string)
    (overwrite : bool) : bool * gmap string string := (true, env).

Definition putenv_example (env : gmap string string) (key value : string)
    : Z * gmap string string := (0, <[key := value]> env).

Definition getenv_example (env : gmap string string) (key : string)
    : option string := env !! key.

Definition build_filename_example (parts : list string) : string :=
  fold_right (fun p acc => match acc with
                           | EmptyString => p
                           | _ => p +:+ "/" +:+ acc
                           end) "" parts.

(** A disk that is full: [open] succeeds and [write] fails with ENOSPC. *)
Definition open_ok (fs : gmap string Pidfile.file) (path : string) : option Z :=
  None.

Definition write_enospc (fs : gmap string Pidfile.file) (path buf : string)
    : Z * Z := (-1, 28).

Definition strerror_example (errno : Z) : string :=
  if errno =? 28 then "No space left on device" else "Unknown error".

Definition file_error_example (errno : Z) : Z :=
  if errno =? 28 then 12 else 24.

Definition old_pidfile : gmap string Pidfile.file :=
  {[ "/var/run/mysql-proxy.pid" := {| Pidfile.f_mode := 420; Pidfile.f_data := "4711" |} ]}.


(** A [g_locale_to_utf8] for a locale in which only ASCII is valid. *)
Definition locale_example (s : string) : option string :=
  if forallb (fun c => (nat_of_ascii c <? 128)%nat) (list_ascii_of_string s)
  then Some s else None.

(** A decimal [strtol] and a conversion of key-file values for the
    examples. *)
Fixpoint decimal_digits (s : string) (acc : Z) : option Z :=
  match s with
  | EmptyString => Some acc
  | String c s' =>
      let n := Z.of_nat (nat_of_ascii c) in
      if (48 <=? n) && (n <=? 57) then decimal_digits s' (10 * acc + (n - 48))
      else None
  end.

Definition strtol_decimal (s : string) : option Z :=
  match s with
  | EmptyString => None
  | _ => decimal_digits s 0
  end.

Definition keyfile_value_example (kind : GOptionArg) (sep : ascii)
    (raw : string) : option value :=
  match kind with
  | G_OPTION_ARG_NONE =>
      if String.eqb raw "true" then Some (VBool true)
      else if String.eqb raw "false" then Some (VBool false) else None
  | G_OPTION_ARG_INT => VInt <$> strtol_decimal raw
  | G_OPTION_ARG_STRING | G_OPTION_ARG_FILENAME => Some (VStr raw)
  | G_OPTION_ARG_STRING_ARRAY | G_OPTION_ARG_FILENAME_ARRAY => Some (VStrv [raw])
  end.

(** Two plugins with options, as the proxy and the admin plugin have. *)
Definition proxy_address : slot := 10%positive.
Definition proxy_lua_script : slot := 11%positive.
Definition admin_address : slot := 20%positive.
Definition print_version_slot : slot := 1%positive.
Definition config_file_slot : slot := 2%positive.

Definition proxy_entries : list GOptionEntry :=
  [ {| long_name := "proxy-address"; short_name := "P";
       arg := G_OPTION_ARG_STRING; arg_data := proxy_address |};
    {| long_name := "proxy-lua-script"; short_name := "s";
       arg := G_OPTION_ARG_FILENAME; arg_data := proxy_lua_script |} ].

Definition admin_entries : list GOptionEntry :=
  [ {| long_name := "admin-address"; short_name := zero;
       arg := G_OPTION_ARG_STRING; arg_data := admin_address |} ].

Definition plugin_proxy : chassis_plugin :=
  {| name := "proxy"; chassis_plugin_get_options := Some proxy_entries |}.

Definition plugin_admin : chassis_plugin :=
  {| name := "admin"; chassis_plugin_get_options := Some admin_entries |}.

(** A configuration file with the section every plugin reads and one
    section per plugin. *)
Definition keyfile_example : GKeyFile :=
  {| kf_groups :=
       {[ "mysql-proxy" := {[ "proxy-address" := ":3306";
                              "admin-address" := ":4041" ]};
          "proxy" := {[ "proxy-address" := ":1" ]};
          "admin" := {[ "admin-address" := ":2" ]} ]};
     kf_list_separator := ","%char |}.

(** The same file without the sections named after the plugins. *)
Definition keyfile_one_section : GKeyFile :=
  {| kf_groups :=
       {[ "mysql-proxy" := {[ "proxy-address" := ":3306";
                              "admin-address" := ":4041" ]} ]};
     kf_list_separator := ","%char |}.

Definition start (argv : list string) : Frontend.state :=
  {| Frontend.option_ctx := g_option_context_new; Frontend.argv := argv;
     Frontend.mem := ∅; Frontend.events := [] |}.

(** The two stages one after the other, as the caller runs them. *)
Definition bootstrap (argv : list string) (plugins : list chassis_plugin)
    (keyfile : option GKeyFile) : outcome * outcome * Frontend.state :=
  let '(r1, st) :=
    Frontend.chassis_frontend_init_base_options unix_platform strtol_decimal locale_example
      print_version_slot config_file_slot (start argv) in
  let '(r2, st) :=
    Frontend.chassis_frontend_init_plugins unix_platform strtol_decimal locale_example
      keyfile_value_example plugins keyfile "/opt/mysql-proxy" st in
  (r1, r2, st).


(** A [chassis_get_basedir] that answers with a relative directory. *)
Definition basedir_relative (prg_name : string) : option string := Some ".".

(** The diagnostics among the events. *)
Definition criticals (tr : trace) : trace := List.filter is_critical tr.


(** The call [chassis_frontend_lua_setenv] makes to set the variable, with
    its result as the function sees it: [_putenv_s] under [_WIN32],
    otherwise [g_setenv] with overwriting, TRUE read as 0 and FALSE
    as -1. *)
Definition lua_platform_setenv (pf : platform) (environ : Type)
    (g_setenv : environ -> string -> string -> bool -> bool * environ)
    (_putenv_s : environ -> string -> string -> Z * environ)
    (env : environ) (key value : string) : Z * environ :=
  if _WIN32 pf then _putenv_s env key value
  else let '(ok, env) := g_setenv env key value true in
       (if ok then 0 else -1, env).

(** The variables and values the events show to have been set. *)
Definition setenv_calls (tr : trace) : list (string * string) :=
  omap (fun e => match e with EvSetenv k v => Some (k, v) | _ => None end) tr.

(** A [g_setenv] that stores the value. *)
Definition setenv_example (env : gmap string string) (key value : string)
    (overwrite : bool) : bool * gmap string string :=
  (true, <[key := value]> env).


(** A [write] that stores everything it is given, and one that stores
    two bytes only. *)
Definition write_all (fs : gmap string Pidfile.file) (path buf : string)
    : Z * Z := (Z.of_nat (String.length buf), 0).

Definition write_two_bytes (fs : gmap string Pidfile.file) (path buf : string)
    : Z * Z := (2, 0).


(** The plugin exports options. *)
Definition has_options (p : chassis_plugin) : bool :=
  match chassis_plugin_get_options p with
  | Some _ => true
  | None => false
  end.

(** The number of calls of [g_option_context_parse] among the events. *)
Definition parse_passes (tr : trace) : nat :=
  length (List.filter
            (fun e => match e with EvOptionParse _ _ _ => true | _ => false end)
            tr).


(** The context the base pass parses with: the two options of
    [chassis_options_set_cmdline_only_options] behind the main entries,
    help disabled, unknown options ignored. *)
Definition base_context (print_version config_file : slot)
    (ctx : GOptionContext) : GOptionContext :=
  g_option_context_set_ignore_unknown_options
    (g_option_context_set_help_enabled
       (g_option_context_add_main_entries ctx
          (chassis_options_to_g_option_entries
             (chassis_options_set_cmdline_only_options chassis_options_new
                print_version config_file)))
       false)
    true.

Definition version_entry (print_version : slot) : GOptionEntry :=
  {| long_name := "version"; short_name := "V";
     arg := G_OPTION_ARG_NONE; arg_data := print_version |}.

Definition defaults_file_entry (config_file : slot) : GOptionEntry :=
  {| long_name := "defaults-file"; short_name := zero;
     arg := G_OPTION_ARG_STRING; arg_data := config_file |}.

(** What storing the name of the configuration file gives. *)
Definition stored_name (g_locale_to_utf8 : string -> option string)
    (config_file : slot) (file : string) (m : memory) : opt_step :=
  match g_locale_to_utf8 file with
  | Some name => Parsed false (<[config_file := VStr name]> m) ∅
  | None => GOption.conversion_failed
  end.


(** ** Arguments no option takes *)

(** An element of [argv] that the context has no use for: it is not an
    option at all, or it is a long option that no entry and no group alias
    of the context matches. *)
Definition passes_through (pf : platform) (strtol : string -> option Z)
    (g_locale_to_utf8 : string -> option string) (ctx : GOptionContext)
    (a : string) : bool :=
  match classify a with
  | Plain => true
  | LongOption arg =>
      match GOption.lookup_long pf strtol g_locale_to_utf8 ctx arg None ∅ ∅ with
      | NotParsed => true
      | _ => false
      end
  | _ => false
  end.

(** The context once the groups of the plugins with options are added. *)
Definition registered (ctx : GOptionContext) (plugins : list chassis_plugin)
    : GOptionContext :=
  fold_left
    (fun c p =>
       match chassis_plugin_get_options p with
       | Some config_entries =>
           g_option_context_add_group c
             (Frontend.plugin_option_group p config_entries)
       | None => c
       end)
    plugins ctx.







(** The settings of the parsing passes among the events: whether the
    context ignored unknown options. *)
Definition pass_settings (tr : trace) : list bool :=
  omap (fun e => match e with EvOptionParse ign _ _ => Some ign | _ => None end)
       tr.








(** * Properties *)

(** ** Plugin loading *)

Lemma eqb_empty_false (n : string) : String.eqb "" n = false <-> n ≠ "".
Proof.
  rewrite String.eqb_neq. split; intros H E; apply H; by symmetry.
Qed.

Lemma eqb_empty_true (n : string) : String.eqb "" n = true <-> n = "".
Proof.
  rewrite String.eqb_eq. split; intros E; by symmetry.
Qed.

Section LoaderFacts.
Variable pf : platform.
Variable chassis_plugin_load : string -> option chassis_plugin.

Local Abbreviation filename := (Loader.plugin_filename pf).
Local Abbreviation load_plugins_from :=
  (Loader.load_plugins_from pf chassis_plugin_load).
Local Abbreviation requested names := (filter (fun n : string => n ≠ "") names).
Local Abbreviation all_loadable := (Loader.all_loadable pf chassis_plugin_load).

Lemma load_plugins_from_success plugin_dir names st :
  all_loadable plugin_dir names ->
  load_plugins_from plugin_dir names st =
    (0, {| Loader.plugins :=
             Loader.plugins st ++
             omap (fun n => chassis_plugin_load (filename plugin_dir n))
                  (requested names);
           Loader.events :=
             Loader.events st ++
             ((fun n => EvPluginLoad (filename plugin_dir n)) <$> requested names) |}).
Proof.
  intros Hall. revert st.
  induction Hall as [|n names Hn _ IH]; intros st;
    cbn [Loader.load_plugins_from].
  - simpl. rewrite !app_nil_r. by destruct st.
  - destruct (String.eqb "" n) eqn:E.
    + apply eqb_empty_true in E. subst n.
      rewrite filter_cons_False by (intros H; by apply H). apply IH.
    + apply eqb_empty_false in E.
      rewrite filter_cons_True by done.
      destruct (Hn E) as [p Hp]. rewrite Hp. rewrite IH. simpl.
      rewrite Hp. simpl. by rewrite <- !app_assoc.
Qed.

Lemma load_plugins_from_failure plugin_dir names st r st' :
  load_plugins_from plugin_dir names st = (r, st') ->
  r ≠ 0 ->
  exists before failing after,
    names = before ++ failing :: after /\
    failing ≠ "" /\
    chassis_plugin_load (filename plugin_dir failing) = None /\
    all_loadable plugin_dir before /\
    r = -1 /\
    Loader.plugins st' =
      Loader.plugins st ++
      omap (fun n => chassis_plugin_load (filename plugin_dir n))
           (requested before) /\
    Loader.load_calls st' =
      Loader.load_calls st ++
      (filename plugin_dir <$> requested before) ++
      [filename plugin_dir failing].
Proof.
  revert st. induction names as [|n names IH]; intros st Hrun Hr;
    cbn [Loader.load_plugins_from] in Hrun.
  - inversion Hrun; subst. done.
  - destruct (String.eqb "" n) eqn:E.
    + apply eqb_empty_true in E. subst n.
      destruct (IH _ Hrun Hr) as (b & f & a & -> & Hf & Hnone & Hb & -> & Hp & Hc).
      exists ("" :: b), f, a.
      rewrite filter_cons_False by (intros H; by apply H).
      split_and!; try done.
      constructor; [intros H; by destruct H | done].
    + apply eqb_empty_false in E.
      destruct (chassis_plugin_load (filename plugin_dir n)) as [p|] eqn:Hp.
      * destruct (IH _ Hrun Hr) as (b & f & a & -> & Hf & Hnone & Hb & -> & Hpl & Hc).
        exists (n :: b), f, a.
        rewrite filter_cons_True by done.
        split_and!; try done.
        -- constructor; [intros _; by rewrite Hp | done].
        -- simpl. rewrite Hp. simpl. rewrite Hpl. simpl.
           by rewrite <- app_assoc.
        -- rewrite Hc. unfold Loader.load_calls. simpl. rewrite omap_app.
           simpl. by rewrite <- !app_assoc.
      * inversion Hrun; subst. exists [], n, names.
        split_and!; try done.
        -- constructor.
        -- simpl. by rewrite app_nil_r.
        -- unfold Loader.load_calls. simpl. rewrite !omap_app. simpl.
           by rewrite app_nil_r.
Qed.
End LoaderFacts.

(** C8: for every plugin directory and every non-empty plugin name the
    file name of the shared module is the directory, the path separator,
    the platform prefix, the name and the platform suffix (a dot and the
    library suffix) in this order, it is the file name the loader is
    called with, and on a Unix-like platform it reads
    [<dir>/lib<name>.so]. *)
Theorem plugin_filename_is_concatenation (pf : platform)
    (chassis_plugin_load : string -> option chassis_plugin)
    (plugin_dir plugin_name : string) :
  plugin_name ≠ "" ->
  let platform_prefix := G_MODULE_PREFIX pf in
  let platform_suffix := "." +:+ SHARED_LIBRARY_SUFFIX pf in
  let expected :=
    plugin_dir +:+ chr (G_DIR_SEPARATOR pf) +:+ platform_prefix +:+
    plugin_name +:+ platform_suffix in
  Loader.plugin_filename pf plugin_dir plugin_name = expected /\
  Loader.load_calls
    (snd (Loader.chassis_frontend_load_plugins pf chassis_plugin_load []
            plugin_dir (Some [plugin_name]))) = [expected] /\
  Loader.plugin_filename unix_platform plugin_dir plugin_name =
    plugin_dir +:+ "/lib" +:+ plugin_name +:+ ".so".
Proof.
  intros Hne. cbv zeta. split_and!.
  - reflexivity.
  - unfold Loader.chassis_frontend_load_plugins.
    cbn [Loader.load_plugins_from].
    apply eqb_empty_false in Hne. rewrite Hne.
    by destruct (chassis_plugin_load _).
  - reflexivity.
Qed.

Lemma plugin_filename_is_concatenation_witness :
  Loader.plugin_filename unix_platform plugins_dir "proxy" =
    "/usr/lib/mysql-proxy/plugins/libproxy.so" /\
  Loader.plugin_filename win32_platform "C:\proxy\bin" "proxy" =
    "C:\proxy\bin\plugin-proxy.dll".
Proof.
  split.
  - apply (plugin_filename_is_concatenation unix_platform only_foo
             plugins_dir "proxy"). done.
  - apply (plugin_filename_is_concatenation win32_platform only_foo
             "C:\proxy\bin" "proxy"). done.
Defined.

(** C6: the names are taken in request order, an empty name is skipped
    without an error, and every non-empty name contributes exactly one
    plugin, appended in request order; an empty or NULL list loads nothing
    and succeeds. *)
Theorem load_plugins_in_request_order (pf : platform)
    (chassis_plugin_load : string -> option chassis_plugin)
    (plugins0 : list chassis_plugin) (plugin_dir : string)
    (names : list string) :
  Loader.all_loadable pf chassis_plugin_load plugin_dir names ->
  let requested := filter (fun n : string => n ≠ "") names in
  let load := Loader.chassis_frontend_load_plugins pf chassis_plugin_load
                plugins0 plugin_dir in
  fst (load (Some names)) = 0 /\
  Loader.plugins (snd (load (Some names))) =
    plugins0 ++
    omap (fun n => chassis_plugin_load (Loader.plugin_filename pf plugin_dir n))
         requested /\
  length (Loader.plugins (snd (load (Some names)))) =
    (length plugins0 + length requested)%nat /\
  Loader.load_calls (snd (load (Some names))) =
    Loader.plugin_filename pf plugin_dir <$> requested /\
  load (Some []) = (0, {| Loader.plugins := plugins0; Loader.events := [] |}) /\
  load None = (0, {| Loader.plugins := plugins0; Loader.events := [] |}).
Proof.
  intros Hall. cbv zeta. unfold Loader.chassis_frontend_load_plugins.
  rewrite (load_plugins_from_success _ _ _ _ _ Hall). simpl.
  split_and!; try done.
  - rewrite length_app. f_equal.
    induction Hall as [|n names Hn Hall IH]; [done|].
    destruct (decide (n = "")) as [->|Hne].
    + rewrite filter_cons_False by (intros H; by apply H). done.
    + rewrite filter_cons_True by done. simpl.
      destruct (Hn Hne) as [p ->]. simpl. f_equal. exact IH.
  - unfold Loader.load_calls. simpl.
    induction (filter _ names) as [|n l IH]; [done|]. simpl. f_equal. exact IH.
Qed.

Lemma load_plugins_in_request_order_witness :
  let r := Loader.chassis_frontend_load_plugins unix_platform only_foo []
             plugins_dir (Some [""; "foo"]) in
  fst r = 0 /\ Loader.plugins (snd r) = [plugin_foo] /\
  Loader.load_calls (snd r) = ["/usr/lib/mysql-proxy/plugins/libfoo.so"].
Proof.
  assert (Hall : Loader.all_loadable unix_platform only_foo plugins_dir [""; "foo"]).
  { repeat constructor; [intros H; by destruct H | intros _; by eexists]. }
  destruct (load_plugins_in_request_order unix_platform only_foo []
              plugins_dir [""; "foo"] Hall) as (H1 & H2 & _ & H4 & _).
  split_and!; [exact H1 | exact H2 | exact H4].
Defined.

(** C3, as the code has it: a call that fails stops at the first name
    whose module cannot be loaded and returns -1; no later name is tried,
    and the collection holds what it held before followed by the plugins
    of the non-empty names in front of the failing one. *)
Theorem load_plugins_fail_fast (pf : platform)
    (chassis_plugin_load : string -> option chassis_plugin)
    (plugins0 : list chassis_plugin) (plugin_dir : string)
    (plugin_names : option (list string)) :
  let r := Loader.chassis_frontend_load_plugins pf chassis_plugin_load
             plugins0 plugin_dir plugin_names in
  fst r ≠ 0 ->
  exists before failing after,
    plugin_names = Some (before ++ failing :: after) /\
    failing ≠ "" /\
    chassis_plugin_load (Loader.plugin_filename pf plugin_dir failing) = None /\
    Loader.all_loadable pf chassis_plugin_load plugin_dir before /\
    fst r = -1 /\
    Loader.plugins (snd r) =
      plugins0 ++
      omap (fun n => chassis_plugin_load (Loader.plugin_filename pf plugin_dir n))
           (filter (fun n : string => n ≠ "") before) /\
    Loader.load_calls (snd r) =
      (Loader.plugin_filename pf plugin_dir <$>
         filter (fun n : string => n ≠ "") before) ++
      [Loader.plugin_filename pf plugin_dir failing].
Proof.
  cbv zeta. unfold Loader.chassis_frontend_load_plugins.
  destruct plugin_names as [names|]; [|done].
  destruct (Loader.load_plugins_from _ _ _ _ _) as [r st'] eqn:Hrun.
  simpl. intros Hr.
  destruct (load_plugins_from_failure _ _ _ _ _ _ _ Hrun Hr)
    as (b & f & a & -> & Hf & Hnone & Hb & -> & Hp & Hc).
  exists b, f, a. split_and!; done.
Qed.

Lemma load_plugins_fail_fast_witness :
  let r := Loader.chassis_frontend_load_plugins unix_platform only_a []
             plugins_dir (Some ["a"; "b"; "c"]) in
  fst r = -1 /\
  Loader.load_calls (snd r) =
    ["/usr/lib/mysql-proxy/plugins/liba.so";
     "/usr/lib/mysql-proxy/plugins/libb.so"].
Proof.
  assert (Hr : fst (Loader.chassis_frontend_load_plugins unix_platform only_a []
                      plugins_dir (Some ["a"; "b"; "c"])) ≠ 0) by done.
  destruct (load_plugins_fail_fast unix_platform only_a [] plugins_dir
              (Some ["a"; "b"; "c"]) Hr)
    as (b & f & a & _ & _ & _ & _ & H1 & _ & _).
  split; [exact H1 | reflexivity].
Defined.

(** C3 as stated does not hold: after the module of ["a"] is loaded and
    the module of ["b"] is not found, the call has failed and the
    collection contains the plugin of ["a"], which this call added. *)
Lemma load_plugins_leaves_partial_set :
  let r := Loader.chassis_frontend_load_plugins unix_platform only_a []
             plugins_dir (Some ["a"; "b"]) in
  fst r = -1 /\ Loader.plugins (snd r) = [plugin_a] /\
  Loader.plugins (snd r) ≠ [].
Proof. by vm_compute. Qed.

(** ** Base directory *)

(** C2: an explicit base directory that is not absolute is an error, with
    no call of [chassis_get_basedir] and [*_base_dir] untouched; an
    absolute one is accepted and left untouched; without an explicit one
    the directory comes from [chassis_get_basedir], and the call fails
    exactly when that function finds none. *)
Theorem init_basedir_explicit_must_be_absolute (pf : platform)
    (chassis_get_basedir : string -> option string)
    (prg_name : string) (_base_dir : option string) :
  let r := Basedir.chassis_frontend_init_basedir pf chassis_get_basedir
             prg_name _base_dir in
  (forall d, _base_dir = Some d -> g_path_is_absolute pf d = false ->
     Basedir.ret r = -1 /\ Basedir.base_dir_out r = Some d /\
     Basedir.attempts_resolution r = false) /\
  (forall d, _base_dir = Some d -> g_path_is_absolute pf d = true ->
     Basedir.ret r = 0 /\ Basedir.base_dir_out r = Some d /\
     Basedir.attempts_resolution r = false) /\
  (_base_dir = None ->
     Basedir.attempts_resolution r = true /\
     Basedir.base_dir_out r = chassis_get_basedir prg_name /\
     (Basedir.ret r = -1 <-> chassis_get_basedir prg_name = None) /\
     (Basedir.ret r = 0 <-> is_Some (chassis_get_basedir prg_name))).
Proof.
  cbv zeta. unfold Basedir.chassis_frontend_init_basedir. split_and!.
  - intros d -> Habs. by rewrite Habs.
  - intros d -> Habs. by rewrite Habs.
  - intros ->. destruct (chassis_get_basedir prg_name) as [d|]; simpl;
      split_and!; try done; split; try done;
      (by eexists) || (by intros [? ?]).
Qed.

Lemma init_basedir_explicit_must_be_absolute_witness :
  Basedir.ret (Basedir.chassis_frontend_init_basedir unix_platform basedir_of
                 "/opt/mysql-proxy/bin/mysql-proxy" (Some "var/proxy")) = -1 /\
  Basedir.ret (Basedir.chassis_frontend_init_basedir unix_platform basedir_of
                 "/opt/mysql-proxy/bin/mysql-proxy" (Some "/var/proxy")) = 0 /\
  Basedir.base_dir_out
    (Basedir.chassis_frontend_init_basedir unix_platform basedir_of
       "/opt/mysql-proxy/bin/mysql-proxy" None) = Some "/opt/mysql-proxy".
Proof.
  split_and!.
  - destruct (init_basedir_explicit_must_be_absolute unix_platform basedir_of
                "/opt/mysql-proxy/bin/mysql-proxy" (Some "var/proxy"))
      as (Hrel & _ & _).
    destruct (Hrel "var/proxy" eq_refl eq_refl) as (Hret & _). exact Hret.
  - destruct (init_basedir_explicit_must_be_absolute unix_platform basedir_of
                "/opt/mysql-proxy/bin/mysql-proxy" (Some "/var/proxy"))
      as (_ & Habs & _).
    destruct (Habs "/var/proxy" eq_refl eq_refl) as (Hret & _). exact Hret.
  - destruct (init_basedir_explicit_must_be_absolute unix_platform basedir_of
                "/opt/mysql-proxy/bin/mysql-proxy" None)
      as (_ & _ & Hnone).
    destruct (Hnone eq_refl) as (_ & Hout & _). exact Hout.
Defined.

(** ** Configuration file *)

(** C7: the permission check is the first thing the function does; a
    file that fails it is never handed to the parser and yields NULL; a
    file the parser rejects yields NULL; a mapping is returned only when
    the check passed, and it is the one the parser produced. *)
Theorem open_config_file_checks_before_parsing
    (chassis_filemode_check : string -> Z)
    (g_key_file_load_from_file : GKeyFile -> string -> GKeyFile + string)
    (filename : string) :
  let r := ConfigFile.chassis_frontend_open_config_file chassis_filemode_check
             g_key_file_load_from_file filename in
  let fresh := g_key_file_set_list_separator g_key_file_new ","%char in
  head (snd r) = Some (EvFilemodeCheck filename) /\
  (chassis_filemode_check filename ≠ 0 ->
     fst r = None /\
     ConfigFile.first_index ConfigFile.is_key_file_load (snd r) = None) /\
  (forall message, g_key_file_load_from_file fresh filename = inr message ->
     fst r = None) /\
  (forall keyfile, fst r = Some keyfile ->
     chassis_filemode_check filename = 0 /\
     g_key_file_load_from_file fresh filename = inl keyfile) /\
  (forall i j,
     ConfigFile.first_index ConfigFile.is_filemode_check (snd r) = Some i ->
     ConfigFile.first_index ConfigFile.is_key_file_load (snd r) = Some j ->
     (i < j)%nat).
Proof.
  cbv zeta. unfold ConfigFile.chassis_frontend_open_config_file.
  destruct (chassis_filemode_check filename =? 0) eqn:Hchk; simpl.
  - apply Z.eqb_eq in Hchk.
    destruct (g_key_file_load_from_file _ filename) as [kf|msg] eqn:Hload;
      simpl; split_and!; try done;
      try (intros k [= <-]; done);
      intros i j [= <-] [= <-]; lia.
  - apply Z.eqb_neq in Hchk. split_and!; try done.
Qed.

Lemma open_config_file_checks_before_parsing_witness :
  ConfigFile.chassis_frontend_open_config_file filemode_check_example
    key_file_load_example "/etc/world-writable.cnf" =
    (None, [EvFilemodeCheck "/etc/world-writable.cnf"]) /\
  fst (ConfigFile.chassis_frontend_open_config_file filemode_check_example
         key_file_load_example "/etc/broken.cnf") = None.
Proof.
  split.
  - apply injective_projections.
    + apply (open_config_file_checks_before_parsing filemode_check_example
               key_file_load_example "/etc/world-writable.cnf"). done.
    + reflexivity.
  - eapply (open_config_file_checks_before_parsing filemode_check_example
              key_file_load_example "/etc/broken.cnf"). reflexivity.
Defined.

(** ** Environment of the embedded Lua *)

Section LuaFacts.
Variable pf : platform.
Variable environ : Type.
Variable g_setenv : environ -> string -> string -> bool -> bool * environ.
Variable _putenv_s : environ -> string -> string -> Z * environ.
Variable getenv : environ -> string -> option string.
Variable g_getenv : environ -> string -> option string.
Variable g_strerror_errno : environ -> string.

Local Abbreviation lua_setenv :=
  (Lua.chassis_frontend_lua_setenv pf environ g_setenv _putenv_s getenv).
Local Abbreviation init_lua_var :=
  (Lua.init_lua_var pf environ g_setenv _putenv_s getenv g_getenv
                    g_strerror_errno).

(** The result is 0 on every path. *)
Lemma init_lua_var_returns_zero var default l1 l2 set_path env :
  fst (fst (init_lua_var var default l1 l2 set_path env)) = 0.
Proof.
  unfold Lua.init_lua_var.
  destruct set_path as [p|]; [|destruct (g_getenv env var)]; try done;
    destruct (lua_setenv _ _ _) as [[r env'] evs];
    by destruct (negb (r =? 0)).
Qed.

(** With an explicit path, what the call of [chassis_frontend_lua_setenv]
    reported is part of the events, and a failed call adds a diagnostic. *)
Lemma init_lua_var_explicit var default l1 l2 p env :
  let s := lua_setenv var p env in
  let r := init_lua_var var default l1 l2 (Some p) env in
  snd (fst r) = snd (fst s) /\
  (fst (fst s) = 0 -> snd r = snd s) /\
  (fst (fst s) ≠ 0 ->
     snd r = snd s ++ [Lua.setting_failed l1 var p (g_strerror_errno (snd (fst s)))]).
Proof.
  cbv zeta. unfold Lua.init_lua_var.
  destruct (lua_setenv _ _ _) as [[r env'] evs]. simpl.
  destruct (r =? 0) eqn:E; simpl.
  - apply Z.eqb_eq in E. done.
  - apply Z.eqb_neq in E. done.
Qed.
End LuaFacts.

(** C9: both functions return 0 for every input and every behaviour of
    the environment.  When the variable cannot be set, and when it reads
    back differently, the only trace of the failure is a [g_critical]
    diagnostic among the events. *)
Theorem init_lua_paths_always_return_zero (pf : platform) (environ : Type)
    (g_setenv : environ -> string -> string -> bool -> bool * environ)
    (_putenv_s : environ -> string -> string -> Z * environ)
    (getenv g_getenv : environ -> string -> option string)
    (g_strerror_errno : environ -> string)
    (g_build_filename : list string -> string)
    (set_path : option string) (base_dir prg_name : string) (env : environ) :
  let init_path :=
    Lua.chassis_frontend_init_lua_path pf environ g_setenv _putenv_s getenv
      g_getenv g_strerror_errno g_build_filename in
  let init_cpath :=
    Lua.chassis_frontend_init_lua_cpath pf environ g_setenv _putenv_s getenv
      g_getenv g_strerror_errno g_build_filename in
  let lua_setenv :=
    Lua.chassis_frontend_lua_setenv pf environ g_setenv _putenv_s getenv in
  fst (fst (init_path set_path base_dir prg_name env)) = 0 /\
  fst (fst (init_cpath set_path base_dir prg_name env)) = 0 /\
  (forall p, set_path = Some p ->
     fst (fst (lua_setenv Lua.LUA_PATH p env)) ≠ 0 \/
     existsb is_critical (snd (lua_setenv Lua.LUA_PATH p env)) = true ->
     existsb is_critical (snd (init_path set_path base_dir prg_name env)) = true) /\
  (forall p, set_path = Some p ->
     fst (fst (lua_setenv Lua.LUA_CPATH p env)) ≠ 0 \/
     existsb is_critical (snd (lua_setenv Lua.LUA_CPATH p env)) = true ->
     existsb is_critical (snd (init_cpath set_path base_dir prg_name env)) = true).
Proof.
  cbv zeta.
  unfold Lua.chassis_frontend_init_lua_path, Lua.chassis_frontend_init_lua_cpath.
  split_and!; try apply init_lua_var_returns_zero.
  - intros p -> H.
    destruct (init_lua_var_explicit pf environ g_setenv _putenv_s getenv g_getenv
                g_strerror_errno Lua.LUA_PATH
                (Lua.chassis_frontend_get_default_lua_path g_build_filename
                   base_dir prg_name) 209 217 p env) as (_ & Hok & Hfail).
    destruct (decide (fst (fst (Lua.chassis_frontend_lua_setenv pf environ g_setenv
                _putenv_s getenv Lua.LUA_PATH p env)) = 0)) as [E|E].
    + rewrite (Hok E). by destruct H.
    + rewrite (Hfail E), existsb_app. simpl. by rewrite orb_true_r.
  - intros p -> H.
    destruct (init_lua_var_explicit pf environ g_setenv _putenv_s getenv g_getenv
                g_strerror_errno Lua.LUA_CPATH
                (Lua.chassis_frontend_get_default_lua_cpath pf g_build_filename
                   base_dir prg_name) 234 242 p env) as (_ & Hok & Hfail).
    destruct (decide (fst (fst (Lua.chassis_frontend_lua_setenv pf environ g_setenv
                _putenv_s getenv Lua.LUA_CPATH p env)) = 0)) as [E|E].
    + rewrite (Hok E). by destruct H.
    + rewrite (Hfail E), existsb_app. simpl. by rewrite orb_true_r.
Qed.

Lemma init_lua_paths_always_return_zero_witness :
  existsb is_critical
    (snd (Lua.chassis_frontend_init_lua_path unix_platform (gmap string string)
            setenv_fails putenv_example getenv_example getenv_example
            (fun _ => "Invalid argument") build_filename_example
            (Some "/opt/lua/?.lua") "/opt/mysql-proxy" "mysql-proxy" ∅)) = true /\
  existsb is_critical
    (snd (Lua.chassis_frontend_init_lua_cpath unix_platform (gmap string string)
            setenv_lost putenv_example getenv_example getenv_example
            (fun _ => "Invalid argument") build_filename_example
            (Some "/opt/lua/?.so") "/opt/mysql-proxy" "mysql-proxy" ∅)) = true.
Proof.
  split.
  - destruct (init_lua_paths_always_return_zero unix_platform (gmap string string)
                setenv_fails putenv_example getenv_example getenv_example
                (fun _ => "Invalid argument") build_filename_example
                (Some "/opt/lua/?.lua") "/opt/mysql-proxy" "mysql-proxy" ∅)
      as (_ & _ & Hpath & _).
    apply (Hpath "/opt/lua/?.lua" eq_refl). left. done.
  - destruct (init_lua_paths_always_return_zero unix_platform (gmap string string)
                setenv_lost putenv_example getenv_example getenv_example
                (fun _ => "Invalid argument") build_filename_example
                (Some "/opt/lua/?.so") "/opt/mysql-proxy" "mysql-proxy" ∅)
      as (_ & _ & _ & Hcpath).
    apply (Hcpath "/opt/lua/?.so" eq_refl). right. reflexivity.
Defined.

(** ** PID file *)

(** C10: when [open] succeeds and [write] fails, the function returns -1
    with an error stored in a free error location, and the file is left
    as [open] made it: present and empty, whatever it held before the
    call, so a file that had content, or did not exist, is not restored. *)
Theorem write_pidfile_not_atomic
    (open_errno : gmap string Pidfile.file -> string -> option Z)
    (write_result : gmap string Pidfile.file -> string -> string -> Z * Z)
    (umask getpid : Z) (g_strerror : Z -> string)
    (g_file_error_from_errno : Z -> Z)
    (pid_file : string) (fs : gmap string Pidfile.file) :
  let opened := Pidfile.open_trunc_creat umask pid_file 384 fs in
  let r := Pidfile.chassis_frontend_write_pidfile open_errno write_result umask
             getpid g_strerror g_file_error_from_errno pid_file (Some None) fs in
  open_errno fs pid_file = None ->
  fst (write_result opened pid_file (pretty getpid)) < 0 ->
  fst (fst r) = -1 /\
  (exists e, snd (fst r) = Some (Some e)) /\
  snd r = opened /\
  (exists f, snd r !! pid_file = Some f /\ Pidfile.f_data f = "" /\
     Pidfile.f_mode f =
       match fs !! pid_file with
       | Some old => Pidfile.f_mode old
       | None => Z.land 384 (Z.lnot umask)
       end) /\
  (forall old, fs !! pid_file = Some old -> Pidfile.f_data old ≠ "" ->
     snd r ≠ fs) /\
  (fs !! pid_file = None -> snd r ≠ fs).
Proof.
  cbv zeta. intros Hopen Hwrite.
  unfold Pidfile.chassis_frontend_write_pidfile. rewrite Hopen.
  destruct (write_result _ pid_file _) as [n errno]. simpl in Hwrite.
  apply Z.ltb_lt in Hwrite. rewrite Hwrite. simpl.
  split_and!; try done.
  - by eexists.
  - unfold Pidfile.open_trunc_creat.
    destruct (fs !! pid_file) as [old|]; eexists;
      (split; [apply lookup_insert_eq | done]).
  - intros old Hold Hdata Heq. unfold Pidfile.open_trunc_creat in Heq.
    rewrite Hold in Heq.
    assert (H : fs !! pid_file =
                Some {| Pidfile.f_mode := Pidfile.f_mode old; Pidfile.f_data := "" |}).
    { rewrite <- Heq at 1. apply lookup_insert_eq. }
    rewrite Hold in H. injection H as H. apply Hdata. by rewrite H.
  - intros Hnone Heq. unfold Pidfile.open_trunc_creat in Heq.
    rewrite Hnone in Heq.
    assert (H : is_Some (fs !! pid_file)).
    { rewrite <- Heq. rewrite lookup_insert_eq. by eexists. }
    rewrite Hnone in H. by destruct H.
Qed.

Lemma write_pidfile_not_atomic_witness :
  let r := Pidfile.chassis_frontend_write_pidfile open_ok write_enospc 18 4711
             strerror_example file_error_example "/var/run/mysql-proxy.pid"
             (Some None) old_pidfile in
  fst (fst r) = -1 /\
  snd r !! "/var/run/mysql-proxy.pid" =
    Some {| Pidfile.f_mode := 420; Pidfile.f_data := "" |}.
Proof.
  destruct (write_pidfile_not_atomic open_ok write_enospc 18 4711
              strerror_example file_error_example "/var/run/mysql-proxy.pid"
              old_pidfile eq_refl) as (Hret & _ & Hfs & _).
  { reflexivity. }
  split; [exact Hret|]. rewrite Hfs. reflexivity.
Defined.

(** ** Option parsing *)

Section ParserFacts.
Variable pf : platform.
Variable strtol : string -> option Z.
Variable g_locale_to_utf8 : string -> option string.

Local Abbreviation unknown := (Some G_OPTION_ERROR_UNKNOWN_OPTION).
Local Abbreviation parse_arg := (GOption.parse_arg pf strtol g_locale_to_utf8).
Local Abbreviation parse_long_option :=
  (GOption.parse_long_option pf strtol g_locale_to_utf8).
Local Abbreviation parse_short_option :=
  (GOption.parse_short_option pf strtol g_locale_to_utf8).
Local Abbreviation lookup_long :=
  (GOption.lookup_long pf strtol g_locale_to_utf8).
Local Abbreviation lookup_short :=
  (GOption.lookup_short pf strtol g_locale_to_utf8).
Local Abbreviation parse_cluster :=
  (GOption.parse_cluster pf strtol g_locale_to_utf8).
Local Abbreviation parse_loop :=
  (GOption.parse_loop pf strtol g_locale_to_utf8).
Local Abbreviation g_option_context_parse :=
  (GOption.g_option_context_parse pf strtol g_locale_to_utf8).

Lemma parse_arg_known e v option_name mem ch :
  step_error (parse_arg e v option_name mem ch) ≠ unknown.
Proof.
  unfold GOption.parse_arg, GOption.conversion_failed.
  destruct (arg e); try done;
    by destruct (GOption.string_value _ _) ||
       by destruct (GOption.filename_value _ _ _) ||
       by destruct (strtol _).
Qed.

(** A recognised option writes its target slot. *)
Lemma parse_arg_sets_slot e v option_name (mem mem' : memory) ch ch' used :
  parse_arg e v option_name mem ch = Parsed used mem' ch' ->
  is_Some (mem' !! arg_data e).
Proof.
  unfold GOption.parse_arg, GOption.conversion_failed.
  destruct (arg e);
    try destruct (GOption.string_value _ _);
    try destruct (GOption.filename_value _ _ _);
    try destruct (strtol _); intros [= _ <- _];
    rewrite lookup_insert_eq; by eexists.
Qed.

Lemma with_next_error r :
  step_error (GOption.with_next r) = step_error r.
Proof. by destruct r. Qed.

Lemma parse_long_option_known entries arg next mem ch :
  step_error (parse_long_option entries arg next mem ch) ≠ unknown.
Proof.
  induction entries as [|e entries IH]; [done|].
  cbn [GOption.parse_long_option].
  destruct (NO_ARG e && String.eqb arg (long_name e));
    [apply parse_arg_known|].
  destruct (String.prefix (long_name e) arg); [|done].
  destruct (String.get _ arg) as [c|].
  - destruct (Ascii.eqb c "="); [apply parse_arg_known | done].
  - destruct next; [|done]. rewrite with_next_error. apply parse_arg_known.
Qed.

Lemma parse_short_option_known entries c next next_used mem ch :
  step_error (parse_short_option entries c next next_used mem ch) ≠ unknown.
Proof.
  induction entries as [|e entries IH]; [done|].
  cbn [GOption.parse_short_option].
  destruct (Ascii.eqb c (short_name e) && negb (Ascii.eqb c zero)); [|done].
  destruct (NO_ARG e); [apply parse_arg_known|].
  destruct next_used; [done|].
  destruct next; [|done]. rewrite with_next_error. apply parse_arg_known.
Qed.

Lemma first_group_known try gs :
  (forall g, step_error (try g) ≠ unknown) ->
  step_error (GOption.first_group try gs) ≠ unknown.
Proof.
  intros Htry. induction gs as [|g gs IH]; [done|]. simpl.
  specialize (Htry g). by destruct (try g).
Qed.

Lemma lookup_long_known ctx arg next mem ch :
  step_error (lookup_long ctx arg next mem ch) ≠ unknown.
Proof.
  unfold GOption.lookup_long.
  pose proof (parse_long_option_known (main_entries ctx) arg next mem ch)
    as Hmain.
  destruct (GOption.parse_long_option _ _ _ (main_entries ctx) _ _ _ _);
    try done.
  pose proof (first_group_known
    (fun g => parse_long_option (group_entries g) arg next mem ch)
    (groups ctx) (fun g => parse_long_option_known _ _ _ _ _)) as Hgroups.
  destruct (GOption.first_group _ _); try done.
  unfold GOption.lookup_alias.
  destruct (strchr "-" arg) as [[|d]|]; try done.
  apply first_group_known. intros g.
  destruct (String.prefix _ _); [apply parse_long_option_known | done].
Qed.

Lemma lookup_short_known ctx c next next_used mem ch :
  step_error (lookup_short ctx c next next_used mem ch) ≠ unknown.
Proof.
  unfold GOption.lookup_short.
  pose proof (parse_short_option_known (main_entries ctx) c next next_used
                mem ch) as Hmain.
  destruct (GOption.parse_short_option _ _ _ (main_entries ctx) _ _ _ _ _);
    try done.
  apply first_group_known. intros g. apply parse_short_option_known.
Qed.

Lemma parse_cluster_known ctx letters next next_used mem ch leftover last :
  GOption.cluster_error
    (parse_cluster ctx letters next next_used mem ch leftover last)
    ≠ unknown.
Proof.
  revert next_used mem ch leftover last.
  induction letters as [|c letters IH];
    intros next_used mem ch leftover last; [done|].
  cbn [GOption.parse_cluster].
  destruct (GOption.help_requested_short ctx c); [done|].
  pose proof (lookup_short_known ctx c next next_used mem ch) as Hc.
  destruct (GOption.lookup_short _ _ _ _ _ _ _ _ _); simpl in *; try done.
  by destruct (ignore_unknown ctx).
Qed.

(** A context that ignores unknown options never fails on one. *)
Lemma parse_loop_tolerant ctx args has_unknown mem ch kept :
  ignore_unknown ctx = true ->
  parse_error (parse_loop ctx args has_unknown mem ch kept) ≠ unknown.
Proof.
  intros Hign. remember (length args) as n eqn:Hn.
  revert args has_unknown mem ch kept Hn.
  induction n as [n IH] using lt_wf_ind.
  intros [|a rest] has_unknown mem ch kept Hn; [done|].
  simpl in Hn. cbn [GOption.parse_loop].
  assert (Hrest : forall hu m c k,
    parse_error (parse_loop ctx rest hu m c k) ≠ unknown).
  { intros. eapply (IH (length rest)); [lia | done]. }
  assert (Hrest' : forall hu m c k,
    parse_error
      match rest with
      | [] => ParseOk k m
      | _ :: rest' => parse_loop ctx rest' hu m c k
      end ≠ unknown).
  { intros. destruct rest as [|b rest']; [done|].
    eapply (IH (length rest')); [simpl in Hn; lia | done]. }
  destruct (classify a) as [|arg|letters|]; try done.
  - destruct (GOption.help_requested_long ctx arg); [done|].
    pose proof (lookup_long_known ctx arg (head rest) mem ch) as Hl.
    destruct (GOption.lookup_long _ _ _ _ _ _ _ _) as [|used mem' ch'|code msg].
    + rewrite Hign. apply Hrest.
    + destruct used; [apply Hrest' | apply Hrest].
    + exact Hl.
  - pose proof (parse_cluster_known ctx letters (head rest) false mem ch ""
                  false) as Hc.
    destruct (GOption.parse_cluster _ _ _ _ _ _ _ _ _ _ _)
      as [|code msg|mem' ch' used leftover last].
    + done.
    + exact Hc.
    + rewrite Hign. simpl. destruct used; [apply Hrest' | apply Hrest].
Qed.

Lemma parse_cluster_no_help ctx letters next next_used mem ch leftover last :
  help_enabled ctx = false ->
  parse_cluster ctx letters next next_used mem ch leftover last
    ≠ GOption.ClusterHelp.
Proof.
  intros Hhelp. revert next_used mem ch leftover last.
  induction letters as [|c letters IH];
    intros next_used mem ch leftover last; [done|].
  cbn [GOption.parse_cluster].
  unfold GOption.help_requested_short. rewrite Hhelp. simpl.
  destruct (GOption.lookup_short _ _ _ _ _ _ _ _ _); try done.
  by destruct (ignore_unknown ctx).
Qed.

(** A context with the help options disabled never prints the help. *)
Lemma parse_loop_no_help ctx args has_unknown mem ch kept :
  help_enabled ctx = false ->
  parse_loop ctx args has_unknown mem ch kept ≠ ParseHelp.
Proof.
  intros Hhelp. remember (length args) as n eqn:Hn.
  revert args has_unknown mem ch kept Hn.
  induction n as [n IH] using lt_wf_ind.
  intros [|a rest] has_unknown mem ch kept Hn; [done|].
  simpl in Hn. cbn [GOption.parse_loop].
  assert (Hrest : forall hu m c k, parse_loop ctx rest hu m c k ≠ ParseHelp).
  { intros. eapply (IH (length rest)); [lia | done]. }
  assert (Hrest' : forall hu m c k,
    match rest with
    | [] => ParseOk k m
    | _ :: rest' => parse_loop ctx rest' hu m c k
    end ≠ ParseHelp).
  { intros. destruct rest as [|b rest']; [done|].
    eapply (IH (length rest')); [simpl in Hn; lia | done]. }
  destruct (classify a) as [|arg|letters|]; try done.
  - unfold GOption.help_requested_long. rewrite Hhelp. simpl.
    destruct (GOption.lookup_long _ _ _ _ _ _ _ _) as [|used mem' ch'|code msg].
    + destruct (ignore_unknown ctx); [apply Hrest | done].
    + destruct used; [apply Hrest' | apply Hrest].
    + done.
  - pose proof (parse_cluster_no_help ctx letters (head rest) false mem ch ""
                  false Hhelp) as Hc.
    destruct (GOption.parse_cluster _ _ _ _ _ _ _ _ _ _ _)
      as [|code msg|mem' ch' used leftover last]; try done.
    destruct (ignore_unknown ctx || last); [|done].
    destruct used; [apply Hrest' | apply Hrest].
Qed.

Lemma parse_no_help ctx argv mem :
  help_enabled ctx = false ->
  g_option_context_parse ctx argv mem ≠ ParseHelp.
Proof.
  intros Hhelp. unfold GOption.g_option_context_parse.
  destruct argv as [|prg args]; [done|].
  pose proof (parse_loop_no_help ctx args false mem ∅ [] Hhelp) as H.
  by destruct (GOption.parse_loop _ _ _ _ _ _ _ _ _).
Qed.

Lemma parse_tolerant ctx argv mem :
  ignore_unknown ctx = true ->
  parse_error (g_option_context_parse ctx argv mem) ≠ unknown.
Proof.
  intros Hign. unfold GOption.g_option_context_parse.
  destruct argv as [|prg args]; [done|].
  pose proof (parse_loop_tolerant ctx args false mem ∅ [] Hign) as H.
  by destruct (GOption.parse_loop _ _ _ _ _ _ _ _ _).
Qed.
End ParserFacts.

Section ParserMore.
Variable pf : platform.
Variable strtol : string -> option Z.
Variable g_locale_to_utf8 : string -> option string.

Local Abbreviation parse_arg := (GOption.parse_arg pf strtol g_locale_to_utf8).
Local Abbreviation parse_long_option :=
  (GOption.parse_long_option pf strtol g_locale_to_utf8).
Local Abbreviation parse_short_option :=
  (GOption.parse_short_option pf strtol g_locale_to_utf8).
Local Abbreviation lookup_alias :=
  (GOption.lookup_alias pf strtol g_locale_to_utf8).
Local Abbreviation lookup_long :=
  (GOption.lookup_long pf strtol g_locale_to_utf8).
Local Abbreviation lookup_short :=
  (GOption.lookup_short pf strtol g_locale_to_utf8).
Local Abbreviation parse_cluster :=
  (GOption.parse_cluster pf strtol g_locale_to_utf8).
Local Abbreviation parse_loop :=
  (GOption.parse_loop pf strtol g_locale_to_utf8).
Local Abbreviation g_option_context_parse :=
  (GOption.g_option_context_parse pf strtol g_locale_to_utf8).
Local Abbreviation passes := (passes_through pf strtol g_locale_to_utf8).

(** *** Whether an option is recognised does not depend on the slots *)

Lemma parse_arg_parsed e v option_name mem ch :
  parse_arg e v option_name mem ch ≠ NotParsed.
Proof.
  unfold GOption.parse_arg, GOption.conversion_failed.
  destruct (arg e); try done;
    by destruct (GOption.string_value _ _) ||
       by destruct (GOption.filename_value _ _ _) ||
       by destruct (strtol _).
Qed.

Lemma with_next_parsed r : GOption.with_next r = NotParsed -> r = NotParsed.
Proof. by destruct r. Qed.

Lemma parse_long_option_unknown entries arg next mem ch next' mem' ch' :
  parse_long_option entries arg next mem ch = NotParsed ->
  parse_long_option entries arg next' mem' ch' = NotParsed.
Proof.
  induction entries as [|e entries IH]; [done|].
  cbn [GOption.parse_long_option].
  destruct (NO_ARG e && String.eqb arg (long_name e)).
  { intros H. by apply parse_arg_parsed in H. }
  destruct (String.prefix (long_name e) arg); [|done].
  destruct (String.get _ arg) as [c|].
  - destruct (Ascii.eqb c "="); [|done].
    intros H. by apply parse_arg_parsed in H.
  - destruct next as [v|]; [|done].
    intros H. apply with_next_parsed in H. by apply parse_arg_parsed in H.
Qed.

Lemma first_group_unknown (try try' : GOptionGroup -> opt_step) gs :
  (forall g, try g = NotParsed -> try' g = NotParsed) ->
  GOption.first_group try gs = NotParsed ->
  GOption.first_group try' gs = NotParsed.
Proof.
  intros Htry. induction gs as [|g gs IH]; [done|]. simpl.
  destruct (try g) eqn:Hg; try done. rewrite (Htry g Hg). exact IH.
Qed.

Lemma first_group_app (try : GOptionGroup -> opt_step) gs1 gs2 :
  GOption.first_group try (gs1 ++ gs2) =
  match GOption.first_group try gs1 with
  | NotParsed => GOption.first_group try gs2
  | r => r
  end.
Proof.
  induction gs1 as [|g gs1 IH]; [done|]. simpl. by destruct (try g).
Qed.

Lemma first_group_fewer (try : GOptionGroup -> opt_step) gs1 gs2 :
  GOption.first_group try (gs1 ++ gs2) = NotParsed ->
  GOption.first_group try gs1 = NotParsed.
Proof.
  rewrite first_group_app. by destruct (GOption.first_group try gs1).
Qed.

Lemma lookup_alias_unknown ctx arg next mem ch next' mem' ch' :
  lookup_alias ctx arg next mem ch = NotParsed ->
  lookup_alias ctx arg next' mem' ch' = NotParsed.
Proof.
  unfold GOption.lookup_alias.
  destruct (strchr "-" arg) as [[|d]|]; try done.
  apply first_group_unknown. intros g.
  destruct (String.prefix _ _); [apply parse_long_option_unknown | done].
Qed.

Lemma lookup_long_unknown ctx arg next mem ch next' mem' ch' :
  lookup_long ctx arg next mem ch = NotParsed ->
  lookup_long ctx arg next' mem' ch' = NotParsed.
Proof.
  unfold GOption.lookup_long.
  destruct (GOption.parse_long_option _ _ _ (main_entries ctx) arg next mem ch)
    eqn:Hmain; try done.
  rewrite (parse_long_option_unknown _ _ _ _ _ next' mem' ch' Hmain).
  destruct (GOption.first_group _ (groups ctx)) eqn:Hgroups; try done.
  rewrite (first_group_unknown _
             (fun g => parse_long_option (group_entries g) arg next' mem' ch')
             _ (fun g => parse_long_option_unknown _ _ _ _ _ _ _ _) Hgroups).
  apply lookup_alias_unknown.
Qed.

(** An option that a context does not recognise is not recognised by a
    context with fewer groups. *)
Lemma lookup_long_fewer_groups ctx1 ctx2 more arg next mem ch :
  main_entries ctx1 = main_entries ctx2 ->
  groups ctx2 = groups ctx1 ++ more ->
  lookup_long ctx2 arg next mem ch = NotParsed ->
  lookup_long ctx1 arg next mem ch = NotParsed.
Proof.
  intros Hmain Hgroups. unfold GOption.lookup_long, GOption.lookup_alias.
  rewrite Hmain, Hgroups.
  destruct (GOption.parse_long_option _ _ _ (main_entries ctx2) _ _ _ _);
    try done.
  rewrite first_group_app.
  destruct (GOption.first_group _ (groups ctx1)); try done.
  destruct (GOption.first_group _ more); try done.
  destruct (strchr "-" arg) as [[|d]|]; try done.
  apply first_group_fewer.
Qed.

Lemma passes_through_fewer_groups ctx1 ctx2 more a :
  main_entries ctx1 = main_entries ctx2 ->
  groups ctx2 = groups ctx1 ++ more ->
  passes ctx2 a = true ->
  passes ctx1 a = true.
Proof.
  intros Hmain Hgroups. unfold passes_through.
  destruct (classify a) as [|arg| |]; try done.
  destruct (GOption.lookup_long _ _ _ ctx2 _ _ _ _) eqn:H2; try done.
  by rewrite (lookup_long_fewer_groups _ _ _ _ _ _ _ Hmain Hgroups H2).
Qed.

(** *** What stays in [argv] *)

(** The arguments the loop has decided to keep stay in front of what it
    returns. *)
Lemma parse_loop_keeps ctx args has_unknown mem ch kept av mem' :
  parse_loop ctx args has_unknown mem ch kept = ParseOk av mem' ->
  exists more, av = kept ++ more.
Proof.
  remember (length args) as n eqn:Hn.
  revert args has_unknown mem ch kept Hn.
  induction n as [n IH] using lt_wf_ind.
  intros [|a rest] has_unknown mem ch kept Hn.
  { intros [= <- _]. exists []. by rewrite app_nil_r. }
  simpl in Hn. cbn [GOption.parse_loop].
  assert (Hrest : forall hu m c k,
    parse_loop ctx rest hu m c k = ParseOk av mem' ->
    exists more, av = k ++ more).
  { intros hu m c k. eapply (IH (length rest)); [lia | done]. }
  assert (Hrest' : forall hu m c k,
    match rest with
    | [] => ParseOk k m
    | _ :: rest' => parse_loop ctx rest' hu m c k
    end = ParseOk av mem' ->
    exists more, av = k ++ more).
  { intros hu m c k. destruct rest as [|b rest'].
    - intros [= <- _]. exists []. by rewrite app_nil_r.
    - eapply (IH (length rest')); [simpl in Hn; lia | done]. }
  assert (Hone : forall hu m c x,
    parse_loop ctx rest hu m c (kept ++ [x]) = ParseOk av mem' ->
    exists more, av = kept ++ more).
  { intros hu m c x H. destruct (Hrest _ _ _ _ H) as [more ->].
    exists ([x] ++ more). by rewrite app_assoc. }
  destruct (classify a) as [|arg|letters|].
  - intros [= <- _]. by eexists.
  - destruct (GOption.help_requested_long ctx arg); [done|].
    destruct (GOption.lookup_long _ _ _ _ _ _ _ _) as [|used m' ch'|code msg].
    + destruct (ignore_unknown ctx); [apply Hone | done].
    + destruct used; [apply Hrest' | apply Hrest].
    + done.
  - destruct (GOption.parse_cluster _ _ _ _ _ _ _ _ _ _ _)
      as [|code msg|m' ch' used leftover last]; try done.
    destruct (ignore_unknown ctx || last); [|done].
    intros H.
    assert (Hk : exists more,
      av = match leftover with
           | "" => kept
           | String _ _ => kept ++ ["-" +:+ leftover]
           end ++ more).
    { destruct used; [by apply Hrest' in H | by apply Hrest in H]. }
    destruct Hk as [more ->]. destruct leftover.
    + by eexists.
    + rewrite <- app_assoc. by eexists.
  - apply Hone.
Qed.

(** Arguments that pass through the context are kept, in place. *)
Lemma parse_loop_passes ctx pre rest has_unknown mem ch kept av mem' :
  Forall (fun a => passes ctx a = true) pre ->
  parse_loop ctx (pre ++ rest) has_unknown mem ch kept = ParseOk av mem' ->
  exists more, av = kept ++ pre ++ more.
Proof.
  intros Hpre. revert kept.
  induction Hpre as [|a pre Ha _ IH]; intros kept; [apply parse_loop_keeps|].
  rewrite <- app_comm_cons. cbn [GOption.parse_loop].
  assert (Hone :
    parse_loop ctx (pre ++ rest) has_unknown mem ch (kept ++ [a]) =
      ParseOk av mem' ->
    exists more, av = kept ++ (a :: pre) ++ more).
  { intros H. destruct (IH _ H) as [more ->]. exists more.
    by rewrite <- app_assoc. }
  unfold passes_through in Ha.
  destruct (classify a) as [|arg|letters|]; try done.
  destruct (GOption.help_requested_long ctx arg); [done|].
  destruct (GOption.lookup_long _ _ _ ctx arg None _ _) eqn:Hl; try done.
  rewrite (lookup_long_unknown _ _ _ _ _ (head (pre ++ rest)) mem ch Hl).
  destruct (ignore_unknown ctx); [exact Hone | done].
Qed.

Lemma parse_keeps_passing ctx prg pre rest mem av mem' :
  Forall (fun a => passes ctx a = true) pre ->
  g_option_context_parse ctx (prg :: pre ++ rest) mem = ParseOk av mem' ->
  exists rest', av = prg :: pre ++ rest'.
Proof.
  intros Hpre. unfold GOption.g_option_context_parse.
  destruct (GOption.parse_loop _ _ _ _ _ _ _ _ _) as [av' m'| |] eqn:Hloop;
    try done.
  intros [= <- _].
  destruct (parse_loop_passes _ _ _ _ _ _ _ _ _ Hpre Hloop) as [more ->].
  by exists more.
Qed.

(** *** What the parser writes does not depend on what the slots hold *)











End ParserMore.

(** ** The two parsing stages *)

Section FrontendFacts.
Variable pf : platform.
Variable strtol : string -> option Z.
Variable g_locale_to_utf8 : string -> option string.
Variable keyfile_value : GOptionArg -> ascii -> string -> option value.

Local Abbreviation init_plugins_from :=
  (Frontend.init_plugins_from pf strtol g_locale_to_utf8 keyfile_value).

(** What every run of the loop over the plugins keeps: the setting of
    the context, that only the section "mysql-proxy" is read, and that a
    tolerant context stays tolerant in every pass. *)
Lemma init_plugins_from_invariants plugins keyfile base_dir st :
  let r := init_plugins_from plugins keyfile base_dir st in
  ignore_unknown (Frontend.option_ctx (snd r)) =
    ignore_unknown (Frontend.option_ctx st) /\
  exists new,
    Frontend.events (snd r) = Frontend.events st ++ new /\
    Forall (fun g => g = "mysql-proxy") (Frontend.sections_consulted new) /\
    (ignore_unknown (Frontend.option_ctx st) = true ->
     forallb Frontend.tolerant_pass new = true).
Proof.
  cbv zeta. revert st.
  induction plugins as [|p plugins IH]; intros st;
    cbn [Frontend.init_plugins_from].
  { split; [done|]. exists []. by rewrite app_nil_r. }
  destruct (chassis_plugin_get_options p) as [config_entries|]; [|apply IH].
  set (ctx := g_option_context_add_group _ _).
  assert (Hctx : ignore_unknown ctx = ignore_unknown (Frontend.option_ctx st))
    by done.
  pose proof (parse_tolerant pf strtol g_locale_to_utf8 ctx (Frontend.argv st) (Frontend.mem st))
    as Hcode.
  rewrite Hctx in Hcode.
  destruct (GOption.g_option_context_parse _ _ _ ctx _ _) as [av m|code msg|]
    eqn:Hparse; simpl.
  - destruct keyfile as [kf|].
    + destruct (Keyfile.chassis_keyfile_to_options _ kf _ _ _) as [r m'].
      simpl. destruct (r =? 0); simpl.
      * match goal with |- context [init_plugins_from _ _ _ ?s] =>
          destruct (IH s) as (Hi & new & He & Hs & Ht) end.
        split; [by rewrite Hi|].
        eexists. split; [rewrite He; simpl; rewrite <- !app_assoc; done|].
        split.
        -- simpl. by constructor.
        -- intros Hign. simpl. rewrite Hign. simpl. by apply Ht.
      * split; [done|]. eexists. split; [by rewrite <- app_assoc|].
        split; [simpl; by repeat constructor|].
        intros Hign. simpl. by rewrite Hign.
    + simpl.
      match goal with |- context [init_plugins_from _ _ _ ?s] =>
        destruct (IH s) as (Hi & new & He & Hs & Ht) end.
      split; [by rewrite Hi|].
      eexists. split; [rewrite He; simpl; rewrite <- !app_assoc; done|].
      split; [done|].
      intros Hign. simpl. rewrite Hign. simpl. by apply Ht.
  - split; [done|]. eexists. split; [by rewrite <- app_assoc|].
    split; [done|].
    intros Hign. simpl. rewrite Hign. simpl.
    rewrite bool_decide_eq_false_2; [done|]. by apply Hcode.
  - split; [done|]. eexists. split; [done|]. split; [done|].
    intros Hign. simpl. by rewrite Hign.
Qed.
End FrontendFacts.

Section OverlayFacts.
Variable pf : platform.
Variable strtol : string -> option Z.
Variable g_locale_to_utf8 : string -> option string.
Variable keyfile_value : GOptionArg -> ascii -> string -> option value.

Local Abbreviation init_plugins_from :=
  (Frontend.init_plugins_from pf strtol g_locale_to_utf8 keyfile_value).

(** A slot that holds a value keeps it through the overlay. *)
Lemma keyfile_to_options_from_keeps section sep config_entries
    (mem : memory) a v :
  mem !! a = Some v ->
  snd (Keyfile.keyfile_to_options_from keyfile_value section sep
         config_entries mem) !! a = Some v.
Proof.
  revert mem. induction config_entries as [|e es IH]; intros mem Ha; [done|].
  cbn [Keyfile.keyfile_to_options_from].
  destruct (mem !! arg_data e) eqn:He; [by apply IH|].
  destruct (section !! long_name e) as [raw|]; [|by apply IH].
  destruct (keyfile_value (arg e) sep raw) as [w|]; [|done].
  apply IH. rewrite lookup_insert_ne; [done|]. congruence.
Qed.

Lemma chassis_keyfile_to_options_keeps keyfile ini_group_name config_entries
    (mem : memory) a v :
  mem !! a = Some v ->
  snd (Keyfile.chassis_keyfile_to_options keyfile_value keyfile ini_group_name
         config_entries mem) !! a = Some v.
Proof.
  intros Ha. unfold Keyfile.chassis_keyfile_to_options.
  destruct (kf_groups keyfile !! ini_group_name); [|done].
  by apply keyfile_to_options_from_keeps.
Qed.

(** What the path resolution leaves in a slot depends on that slot
    alone. *)
Lemma chassis_keyfile_resolve_path_local base_dir config_entries
    (m1 m2 : memory) a :
  m1 !! a = m2 !! a ->
  Keyfile.chassis_keyfile_resolve_path pf base_dir config_entries m1 !! a =
  Keyfile.chassis_keyfile_resolve_path pf base_dir config_entries m2 !! a.
Proof.
  revert m1 m2. induction config_entries as [|e es IH]; intros m1 m2 Ha;
    [done|].
  cbn [Keyfile.chassis_keyfile_resolve_path]. apply IH.
  destruct (decide (arg_data e = a)) as [<-|Hne].
  - rewrite Ha.
    destruct (arg e), (m2 !! arg_data e) as [[]|] eqn:H2;
      rewrite ?lookup_insert_eq; congruence.
  - destruct (arg e), (m1 !! arg_data e) as [[]|],
             (m2 !! arg_data e) as [[]|];
      by rewrite ?lookup_insert_ne.
Qed.

(** Only the section "mysql-proxy" of the key file is looked at. *)
Lemma init_plugins_from_one_section plugins kf kf' base_dir st :
  kf_groups kf !! "mysql-proxy" = kf_groups kf' !! "mysql-proxy" ->
  kf_list_separator kf = kf_list_separator kf' ->
  init_plugins_from plugins (Some kf) base_dir st =
  init_plugins_from plugins (Some kf') base_dir st.
Proof.
  intros Hsec Hsep. revert st.
  induction plugins as [|p plugins IH]; intros st; [done|].
  cbn [Frontend.init_plugins_from].
  destruct (chassis_plugin_get_options p) as [config_entries|]; [|apply IH].
  destruct (GOption.g_option_context_parse _ _ _ _ _ _); try done.
  assert (Hk : forall m,
    Keyfile.chassis_keyfile_to_options keyfile_value kf "mysql-proxy"
      config_entries m =
    Keyfile.chassis_keyfile_to_options keyfile_value kf' "mysql-proxy"
      config_entries m).
  { intros m. unfold Keyfile.chassis_keyfile_to_options.
    by rewrite Hsec, Hsep. }
  rewrite Hk. destruct (Keyfile.chassis_keyfile_to_options _ kf' _ _ _).
  simpl. destruct (negb _); [done | apply IH].
Qed.

(** After a successful run every plugin with options has its group in
    the context, in the order of the plugins. *)
Lemma init_plugins_from_groups plugins keyfile base_dir st st' :
  init_plugins_from plugins keyfile base_dir st = (Returned 0, st') ->
  groups (Frontend.option_ctx st') =
    groups (Frontend.option_ctx st) ++
    omap (fun p => Frontend.plugin_option_group p <$>
                     chassis_plugin_get_options p) plugins.
Proof.
  revert st. induction plugins as [|p plugins IH]; intros st;
    cbn [Frontend.init_plugins_from].
  { intros [= <-]. by rewrite app_nil_r. }
  assert (Hom :
    omap (fun p => Frontend.plugin_option_group p <$>
                     chassis_plugin_get_options p) (p :: plugins) =
    match chassis_plugin_get_options p with
    | Some es =>
        Frontend.plugin_option_group p es ::
        omap (fun p => Frontend.plugin_option_group p <$>
                         chassis_plugin_get_options p) plugins
    | None =>
        omap (fun p => Frontend.plugin_option_group p <$>
                         chassis_plugin_get_options p) plugins
    end).
  { simpl. by destruct (chassis_plugin_get_options p). }
  rewrite Hom. clear Hom.
  destruct (chassis_plugin_get_options p) as [config_entries|]; [|apply IH].
  destruct (GOption.g_option_context_parse _ _ _ _ _ _); try done.
  destruct keyfile as [kf|].
  - destruct (Keyfile.chassis_keyfile_to_options _ kf _ _ _) as [r m'].
    simpl. destruct (negb _); [done|]. intros Hrun.
    rewrite (IH _ Hrun). simpl. by rewrite <- app_assoc.
  - simpl. intros Hrun. rewrite (IH _ Hrun). simpl. by rewrite <- app_assoc.
Qed.
End OverlayFacts.





Section StageFacts.
Variable pf : platform.
Variable strtol : string -> option Z.
Variable g_locale_to_utf8 : string -> option string.
Variable keyfile_value : GOptionArg -> ascii -> string -> option value.

Local Abbreviation parse_long_option :=
  (GOption.parse_long_option pf strtol g_locale_to_utf8).
Local Abbreviation lookup_long :=
  (GOption.lookup_long pf strtol g_locale_to_utf8).
Local Abbreviation parse_loop :=
  (GOption.parse_loop pf strtol g_locale_to_utf8).
Local Abbreviation g_option_context_parse :=
  (GOption.g_option_context_parse pf strtol g_locale_to_utf8).
Local Abbreviation passes := (passes_through pf strtol g_locale_to_utf8).
Local Abbreviation init_base_options :=
  (Frontend.chassis_frontend_init_base_options pf strtol g_locale_to_utf8).
Local Abbreviation init_plugins_from :=
  (Frontend.init_plugins_from pf strtol g_locale_to_utf8 keyfile_value).

(** The loop over a list in two parts. *)
Lemma init_plugins_from_app plugins1 plugins2 keyfile base_dir st :
  init_plugins_from (plugins1 ++ plugins2) keyfile base_dir st =
    let r1 := init_plugins_from plugins1 keyfile base_dir st in
    match fst r1 with
    | Returned 0 => init_plugins_from plugins2 keyfile base_dir (snd r1)
    | _ => r1
    end.
Proof.
  revert st. induction plugins1 as [|p plugins1 IH]; intros st; [done|].
  cbn [app Frontend.init_plugins_from].
  destruct (chassis_plugin_get_options p) as [config_entries|]; [|apply IH].
  destruct (GOption.g_option_context_parse _ _ _ _ _ _); try done.
  destruct keyfile as [kf|].
  - destruct (Keyfile.chassis_keyfile_to_options _ kf _ _ _) as [r m'].
    simpl. destruct (negb _); [done | apply IH].
  - simpl. apply IH.
Qed.

(** *** The context with the groups of the plugins *)

Lemma registered_cons ctx p plugins :
  registered ctx (p :: plugins) =
  registered
    match chassis_plugin_get_options p with
    | Some config_entries =>
        g_option_context_add_group ctx
          (Frontend.plugin_option_group p config_entries)
    | None => ctx
    end plugins.
Proof. done. Qed.


Lemma registered_shape ctx plugins :
  main_entries (registered ctx plugins) = main_entries ctx /\
  help_enabled (registered ctx plugins) = help_enabled ctx /\
  ignore_unknown (registered ctx plugins) = ignore_unknown ctx /\
  exists more, groups (registered ctx plugins) = groups ctx ++ more.
Proof.
  revert ctx. induction plugins as [|p plugins IH]; intros ctx.
  { split_and!; try done. exists []. by rewrite app_nil_r. }
  rewrite registered_cons.
  destruct (chassis_plugin_get_options p) as [config_entries|]; [|apply IH].
  destruct (IH (g_option_context_add_group ctx
                  (Frontend.plugin_option_group p config_entries)))
    as (Hm & Hh & Hi & more & Hg).
  split_and!; try done.
  eexists. rewrite Hg. simpl. by rewrite <- app_assoc.
Qed.

Lemma passes_through_registered ctx plugins a :
  passes (registered ctx plugins) a = true ->
  passes ctx a = true.
Proof.
  destruct (registered_shape ctx plugins) as (Hm & _ & _ & more & Hg).
  by apply (passes_through_fewer_groups _ _ _ _ _ more).
Qed.

Lemma Forall_passes_through_registered ctx plugins l :
  Forall (fun a => passes (registered ctx plugins) a = true) l ->
  Forall (fun a => passes ctx a = true) l.
Proof.
  intros H. eapply Forall_impl; [exact H|].
  intros a. apply passes_through_registered.
Qed.

(** *** What the two stages leave in [argv] *)

Lemma init_base_options_keeps_argv print_version config_file st prg pre rest :
  Frontend.argv st = prg :: pre ++ rest ->
  Forall (fun a => passes
                     (base_context print_version config_file
                        (Frontend.option_ctx st)) a = true) pre ->
  let r := init_base_options print_version config_file st in
  Frontend.option_ctx (snd r) =
    base_context print_version config_file (Frontend.option_ctx st) /\
  exists rest', Frontend.argv (snd r) = prg :: pre ++ rest'.
Proof.
  intros Hargv Hpre. cbv zeta.
  unfold Frontend.chassis_frontend_init_base_options.
  fold (base_context print_version config_file (Frontend.option_ctx st)).
  destruct (GOption.g_option_context_parse _ _ _ _ _ _) as [av m|code msg|]
    eqn:Hparse; simpl; (split; [done|]); try by exists rest.
  rewrite Hargv in Hparse.
  exact (parse_keeps_passing _ _ _ _ _ _ _ _ _ _ Hpre Hparse).
Qed.

Lemma init_plugins_from_keeps_argv plugins keyfile base_dir st prg pre rest :
  Frontend.argv st = prg :: pre ++ rest ->
  Forall (fun a => passes
                     (registered (Frontend.option_ctx st) plugins) a = true)
         pre ->
  exists rest',
    Frontend.argv (snd (init_plugins_from plugins keyfile base_dir st)) =
      prg :: pre ++ rest'.
Proof.
  revert st rest. induction plugins as [|p plugins IH];
    intros st rest Hargv Hpre; cbn [Frontend.init_plugins_from].
  { by exists rest. }
  rewrite registered_cons in Hpre.
  destruct (chassis_plugin_get_options p) as [config_entries|];
    [|by apply (IH st rest)].
  set (ctx := g_option_context_add_group _ _) in *.
  pose proof (Forall_passes_through_registered _ _ _ Hpre) as Hctx.
  destruct (GOption.g_option_context_parse _ _ _ ctx _ _) as [av m|code msg|]
    eqn:Hparse; simpl; try by exists rest.
  rewrite Hargv in Hparse.
  destruct (parse_keeps_passing _ _ _ _ _ _ _ _ _ _ Hctx Hparse) as [rest' ->].
  destruct keyfile as [kf|].
  - destruct (Keyfile.chassis_keyfile_to_options _ kf _ _ _) as [r m'].
    simpl. destruct (negb _); [by exists rest'|].
    by apply (IH _ rest').
  - simpl. by apply (IH _ rest').
Qed.

(** Every pass of the loop runs with the setting the context has when
    the loop starts, and the loop leaves the setting as it is. *)
Lemma init_plugins_from_settings plugins keyfile base_dir st :
  let r := init_plugins_from plugins keyfile base_dir st in
  ignore_unknown (Frontend.option_ctx (snd r)) =
    ignore_unknown (Frontend.option_ctx st) /\
  exists new,
    Frontend.events (snd r) = Frontend.events st ++ new /\
    Forall (fun b => b = ignore_unknown (Frontend.option_ctx st))
           (pass_settings new).
Proof.
  cbv zeta. revert st.
  induction plugins as [|p plugins IH]; intros st;
    cbn [Frontend.init_plugins_from].
  { split; [done|]. exists []. by rewrite app_nil_r. }
  destruct (chassis_plugin_get_options p) as [config_entries|]; [|apply IH].
  set (ctx := g_option_context_add_group _ _).
  destruct (GOption.g_option_context_parse _ _ _ ctx _ _) as [av m|code msg|];
    simpl.
  - destruct keyfile as [kf|].
    + destruct (Keyfile.chassis_keyfile_to_options _ kf _ _ _) as [r m'].
      simpl. destruct (r =? 0); simpl.
      * match goal with |- context [init_plugins_from _ _ _ ?s] =>
          destruct (IH s) as (Hi & new & He & Hs) end.
        split; [by rewrite Hi|].
        eexists. split; [rewrite He; simpl; rewrite <- !app_assoc; done|].
        simpl. by constructor.
      * split; [done|]. eexists. split; [by rewrite <- app_assoc|].
        simpl. by repeat constructor.
    + simpl.
      match goal with |- context [init_plugins_from _ _ _ ?s] =>
        destruct (IH s) as (Hi & new & He & Hs) end.
      split; [by rewrite Hi|].
      eexists. split; [rewrite He; simpl; rewrite <- !app_assoc; done|].
      simpl. by constructor.
  - split; [done|]. eexists. split; [by rewrite <- app_assoc|].
    simpl. by repeat constructor.
  - split; [done|]. eexists. split; [done|]. simpl. by repeat constructor.
Qed.

(** *** The overlay only adds *)






(** *** An option given as [--name=value] *)



Section OnePass.
Variable ctx : GOptionContext.
Hypothesis Hhelp : help_enabled ctx = false.
Hypothesis Hign : ignore_unknown ctx = true.



End OnePass.

End StageFacts.

(** C4, as the code has it: the base pass switches the context to ignore
    unknown options and so never fails on one, and
    [chassis_frontend_init_plugins] never switches it back: from whatever
    state it is called, every pass it performs runs with the setting the
    context has at the call, so after the base pass no pass of this file
    is strict and none fails on an unrecognised option.  Arguments in
    front of the first one an option takes, none of which is taken by any
    option of the base pass or of the plugins, are still in [argv], in
    their place, after the base pass and after the last pass. *)
Theorem unknown_options_tolerated_in_every_pass (pf : platform)
    (strtol : string -> option Z)
    (g_locale_to_utf8 : string -> option string)
    (keyfile_value : GOptionArg -> ascii -> string -> option value)
    (print_version config_file : slot) (plugins : list chassis_plugin)
    (keyfile : option GKeyFile) (base_dir : string) (st : Frontend.state) :
  let base :=
    Frontend.chassis_frontend_init_base_options pf strtol g_locale_to_utf8 print_version
      config_file st in
  let final :=
    Frontend.chassis_frontend_init_plugins pf strtol g_locale_to_utf8 keyfile_value plugins
      keyfile base_dir (snd base) in
  ignore_unknown (Frontend.option_ctx (snd base)) = true /\
  (exists failed,
     Frontend.events (snd base) =
       Frontend.events st ++ [EvOptionParse true (Frontend.argv st) failed] /\
     failed ≠ Some G_OPTION_ERROR_UNKNOWN_OPTION /\
     fst base = Returned (match failed with Some _ => -1 | None => 0 end)) /\
  ignore_unknown (Frontend.option_ctx (snd final)) = true /\
  (exists new,
     Frontend.events (snd final) = Frontend.events (snd base) ++ new /\
     forallb Frontend.tolerant_pass new = true) /\
  (forall st0 : Frontend.state,
     let r :=
       Frontend.chassis_frontend_init_plugins pf strtol g_locale_to_utf8
         keyfile_value plugins keyfile base_dir st0 in
     ignore_unknown (Frontend.option_ctx (snd r)) =
       ignore_unknown (Frontend.option_ctx st0) /\
     exists new,
       Frontend.events (snd r) = Frontend.events st0 ++ new /\
       Forall (fun setting => setting = ignore_unknown (Frontend.option_ctx st0))
              (pass_settings new)) /\
  (forall (prg : string) (pre rest : list string),
     Frontend.argv st = prg :: pre ++ rest ->
     Forall (fun a =>
               passes_through pf strtol g_locale_to_utf8
                 (registered
                    (base_context print_version config_file
                       (Frontend.option_ctx st))
                    plugins) a = true)
            pre ->
     (exists rest', Frontend.argv (snd base) = prg :: pre ++ rest') /\
     (exists rest', Frontend.argv (snd final) = prg :: pre ++ rest')).
Proof.
  cbv zeta.
  assert (Hbase : ignore_unknown (Frontend.option_ctx (snd
            (Frontend.chassis_frontend_init_base_options pf strtol g_locale_to_utf8 print_version
               config_file st))) = true).
  { unfold Frontend.chassis_frontend_init_base_options.
    by destruct (GOption.g_option_context_parse _ _ _ _ _ _). }
  split; [exact Hbase|]. split; [|split_and!].
  - unfold Frontend.chassis_frontend_init_base_options.
    set (ctx := g_option_context_set_ignore_unknown_options _ true).
    pose proof (parse_tolerant pf strtol g_locale_to_utf8 ctx (Frontend.argv st) (Frontend.mem st)
                  eq_refl) as Hcode.
    pose proof (parse_no_help pf strtol g_locale_to_utf8 ctx (Frontend.argv st) (Frontend.mem st)
                  eq_refl) as Hhelp.
    eexists. split_and!; [|exact Hcode|];
      by destruct (GOption.g_option_context_parse _ _ _ ctx _ _).
  - unfold Frontend.chassis_frontend_init_plugins.
    destruct (init_plugins_from_invariants pf strtol g_locale_to_utf8 keyfile_value plugins
                keyfile base_dir
                (snd (Frontend.chassis_frontend_init_base_options pf strtol g_locale_to_utf8
                        print_version config_file st)))
      as (Hi & _). by rewrite Hi.
  - unfold Frontend.chassis_frontend_init_plugins.
    destruct (init_plugins_from_invariants pf strtol g_locale_to_utf8 keyfile_value plugins
                keyfile base_dir
                (snd (Frontend.chassis_frontend_init_base_options pf strtol g_locale_to_utf8
                        print_version config_file st)))
      as (_ & new & He & _ & Ht).
    exists new. split; [exact He | by apply Ht].
  - intros st0. apply init_plugins_from_settings.
  - intros prg pre rest Hargv Hpre.
    destruct (init_base_options_keeps_argv pf strtol g_locale_to_utf8
                print_version config_file st prg pre rest Hargv)
      as (Hctx & rest1 & Hargv1).
    { by apply (Forall_passes_through_registered _ _ _ _ plugins). }
    split; [by exists rest1|].
    unfold Frontend.chassis_frontend_init_plugins.
    apply (init_plugins_from_keeps_argv _ _ _ _ _ _ _ _ _ _ rest1 Hargv1).
    by rewrite Hctx.
Qed.

Lemma unknown_options_tolerated_in_every_pass_witness :
  exists rest,
    Frontend.argv
      (snd (Frontend.chassis_frontend_init_plugins unix_platform
              strtol_decimal locale_example keyfile_value_example
              [plugin_proxy; plugin_admin] None "/opt/mysql-proxy"
              (snd (Frontend.chassis_frontend_init_base_options unix_platform
                      strtol_decimal locale_example print_version_slot
                      config_file_slot
                      (start ["mysql-proxy"; "--bogus"; "stray";
                              "--proxy-address=:4040"; "--other"]))))) =
    "mysql-proxy" :: ["--bogus"; "stray"] ++ rest.
Proof.
  destruct (unknown_options_tolerated_in_every_pass unix_platform
              strtol_decimal locale_example keyfile_value_example
              print_version_slot config_file_slot [plugin_proxy; plugin_admin]
              None "/opt/mysql-proxy"
              (start ["mysql-proxy"; "--bogus"; "stray";
                      "--proxy-address=:4040"; "--other"]))
    as (_ & _ & _ & _ & _ & Hargv).
  destruct (Hargv "mysql-proxy" ["--bogus"; "stray"]
                  ["--proxy-address=:4040"; "--other"]) as [_ Hfinal].
  - reflexivity.
  - repeat constructor.
  - exact Hfinal.
Defined.

(** C4 as stated does not hold: with the proxy and the admin plugin
    loaded and [--bogus] on the command line, the pass that runs after
    the last plugin group is registered succeeds, although no entry of
    the final context recognises [--bogus] and it is still in [argv]. *)
Lemma unknown_option_survives_last_pass :
  let '(r1, r2, st) :=
    bootstrap ["mysql-proxy"; "--bogus"; "--proxy-address=:4040"]
              [plugin_proxy; plugin_admin] None in
  r1 = Returned 0 /\ r2 = Returned 0 /\
  Frontend.argv st = ["mysql-proxy"; "--bogus"] /\
  GOption.lookup_long unix_platform strtol_decimal locale_example
    (Frontend.option_ctx st) "bogus" None (Frontend.mem st) ∅ = NotParsed /\
  last (Frontend.events st) = Some (EvResolvePath "/opt/mysql-proxy") /\
  Frontend.events st !! 3%nat =
    Some (EvOptionParse true ["mysql-proxy"; "--bogus"] None).
Proof. by vm_compute. Qed.

(** C5, as the code has it: the option group of a plugin is named after
    the plugin, but the section of the configuration file the plugin's
    options are read from is always "mysql-proxy": the sections named
    after the plugins have no influence, and plugins with different names
    read the same section. *)
Theorem plugin_options_read_from_fixed_section (pf : platform)
    (strtol : string -> option Z)
    (g_locale_to_utf8 : string -> option string)
    (keyfile_value : GOptionArg -> ascii -> string -> option value)
    (plugins : list chassis_plugin) (base_dir : string)
    (st : Frontend.state) :
  let init := Frontend.chassis_frontend_init_plugins pf strtol g_locale_to_utf8 keyfile_value
                plugins in
  (forall p config_entries,
     group_name (Frontend.plugin_option_group p config_entries) = name p) /\
  (forall keyfile st',
     init keyfile base_dir st = (Returned 0, st') ->
     groups (Frontend.option_ctx st') =
       groups (Frontend.option_ctx st) ++
       omap (fun p => Frontend.plugin_option_group p <$>
                        chassis_plugin_get_options p) plugins) /\
  (forall keyfile, exists new,
     Frontend.events (snd (init keyfile base_dir st)) =
       Frontend.events st ++ new /\
     Forall (fun section => section = "mysql-proxy")
            (Frontend.sections_consulted new)) /\
  (forall kf kf',
     kf_groups kf !! "mysql-proxy" = kf_groups kf' !! "mysql-proxy" ->
     kf_list_separator kf = kf_list_separator kf' ->
     init (Some kf) base_dir st = init (Some kf') base_dir st).
Proof.
  cbv zeta. unfold Frontend.chassis_frontend_init_plugins. split_and!.
  - done.
  - intros keyfile st'. apply init_plugins_from_groups.
  - intros keyfile.
    destruct (init_plugins_from_invariants pf strtol g_locale_to_utf8 keyfile_value plugins
                keyfile base_dir st) as (_ & new & He & Hs & _).
    by exists new.
  - intros kf kf'. apply init_plugins_from_one_section.
Qed.

Lemma plugin_options_read_from_fixed_section_witness :
  Frontend.chassis_frontend_init_plugins unix_platform strtol_decimal locale_example
    keyfile_value_example [plugin_proxy; plugin_admin] (Some keyfile_example)
    "/opt/mysql-proxy" (start ["mysql-proxy"]) =
  Frontend.chassis_frontend_init_plugins unix_platform strtol_decimal locale_example
    keyfile_value_example [plugin_proxy; plugin_admin]
    (Some keyfile_one_section) "/opt/mysql-proxy" (start ["mysql-proxy"]).
Proof.
  apply (plugin_options_read_from_fixed_section unix_platform strtol_decimal locale_example
           keyfile_value_example [plugin_proxy; plugin_admin]
           "/opt/mysql-proxy" (start ["mysql-proxy"])).
  - by vm_compute.
  - reflexivity.
Defined.

(** C5 as stated does not hold: the configuration file has a section
    "proxy" and a section "admin", yet both plugins are given the section
    "mysql-proxy", and the values that reach their slots are the ones of
    that section, not those of the sections named after them. *)
Lemma plugins_share_one_section :
  let '(_, r2, st) :=
    bootstrap ["mysql-proxy"] [plugin_proxy; plugin_admin]
              (Some keyfile_example) in
  r2 = Returned 0 /\
  name plugin_proxy ≠ name plugin_admin /\
  Frontend.sections_consulted (Frontend.events st) =
    ["mysql-proxy"; "mysql-proxy"] /\
  Frontend.mem st !! proxy_address = Some (VStr ":3306") /\
  (kf_groups keyfile_example !! "proxy") ≫= (.!! "proxy-address") = Some ":1" /\
  Frontend.mem st !! admin_address = Some (VStr ":4041") /\
  (kf_groups keyfile_example !! "admin") ≫= (.!! "admin-address") = Some ":2".
Proof. by vm_compute. Qed.




(** * Further properties *)

(** ** Plugin loading *)

Section LoaderMore.
Variable pf : platform.
Variable chassis_plugin_load : string -> option chassis_plugin.

Local Abbreviation filename := (Loader.plugin_filename pf).
Local Abbreviation load_plugins_from :=
  (Loader.load_plugins_from pf chassis_plugin_load).

(** The loop never touches what the collection and the trace already
    hold, and what it adds does not depend on them. *)
Lemma load_plugins_from_shape plugin_dir names st1 st2 :
  exists r added new,
    load_plugins_from plugin_dir names st1 =
      (r, {| Loader.plugins := Loader.plugins st1 ++ added;
             Loader.events := Loader.events st1 ++ new |}) /\
    load_plugins_from plugin_dir names st2 =
      (r, {| Loader.plugins := Loader.plugins st2 ++ added;
             Loader.events := Loader.events st2 ++ new |}) /\
    (r = 0 \/ r = -1) /\
    (length added <= length (filter (fun n : string => n ≠ "") names))%nat /\
    Forall (fun p => exists n, n ∈ names /\ n ≠ "" /\
                     chassis_plugin_load (filename plugin_dir n) = Some p)
           added.
Proof.
  revert st1 st2. induction names as [|n names IH]; intros st1 st2;
    cbn [Loader.load_plugins_from].
  { exists 0, [], []. rewrite !app_nil_r. destruct st1, st2.
    split_and!; try done. by left. }
  destruct (String.eqb "" n) eqn:E.
  - apply eqb_empty_true in E. subst n.
    destruct (IH st1 st2) as (r & added & new & H1 & H2 & Hr & Hlen & Hall).
    exists r, added, new.
    rewrite filter_cons_False by (intros H; by apply H).
    split_and!; try done.
    eapply Forall_impl; [exact Hall|]. intros p (m & Hm & Hne & Hp).
    exists m. split_and!; try done. by right.
  - apply eqb_empty_false in E.
    rewrite filter_cons_True by done.
    destruct (chassis_plugin_load (filename plugin_dir n)) as [p|] eqn:Hp.
    + destruct (IH (Loader.g_ptr_array_add p
                      (Loader.emit (EvPluginLoad (filename plugin_dir n)) st1))
                   (Loader.g_ptr_array_add p
                      (Loader.emit (EvPluginLoad (filename plugin_dir n)) st2)))
        as (r & added & new & H1 & H2 & Hr & Hlen & Hall).
      exists r, (p :: added), (EvPluginLoad (filename plugin_dir n) :: new).
      rewrite H1, H2. simpl. rewrite <- !app_assoc. simpl.
      split_and!; try done; [lia|].
      constructor.
      * exists n. split_and!; try done. by left.
      * eapply Forall_impl; [exact Hall|]. intros q (m & Hm & Hne & Hq).
        exists m. split_and!; try done. by right.
    + exists (-1), [],
        [EvPluginLoad (filename plugin_dir n);
         EvCritical "setting --plugin-dir=<dir> might help"].
      unfold Loader.emit. simpl. rewrite !app_nil_r, <- !app_assoc. simpl.
      split_and!; try done; [by right | lia].
Qed.

Lemma load_plugins_from_app plugin_dir names1 names2 st :
  load_plugins_from plugin_dir (names1 ++ names2) st =
    let r1 := load_plugins_from plugin_dir names1 st in
    if fst r1 =? 0 then load_plugins_from plugin_dir names2 (snd r1) else r1.
Proof.
  revert st. induction names1 as [|n names1 IH]; intros st; [done|].
  cbn [app Loader.load_plugins_from].
  destruct (String.eqb "" n); [apply IH|].
  destruct (chassis_plugin_load (filename plugin_dir n)); [apply IH | done].
Qed.

Lemma load_plugins_from_zero plugin_dir names st :
  fst (load_plugins_from plugin_dir names st) = 0 ->
  Loader.all_loadable pf chassis_plugin_load plugin_dir names.
Proof.
  revert st. induction names as [|n names IH]; intros st;
    cbn [Loader.load_plugins_from]; [constructor|].
  destruct (String.eqb "" n) eqn:E.
  - apply eqb_empty_true in E. subst n. intros H. constructor; [|by eapply IH].
    intros Hne. by destruct Hne.
  - destruct (chassis_plugin_load (filename plugin_dir n)) as [p|] eqn:Hp;
      [|done].
    intros H. constructor; [|by eapply IH]. intros _. by rewrite Hp.
Qed.
End LoaderMore.

(** X1: whatever the outcome, the plugins that were in the collection
    before the call are still there, in the same order, in front of the
    ones the call added; every added plugin is what the loader returned
    for one of the non-empty names, there are at most as many as there
    are non-empty names, and the result is 0 or -1. *)
Theorem load_plugins_only_appends (pf : platform)
    (chassis_plugin_load : string -> option chassis_plugin)
    (plugins0 : list chassis_plugin) (plugin_dir : string)
    (plugin_names : option (list string)) :
  let r := Loader.chassis_frontend_load_plugins pf chassis_plugin_load
             plugins0 plugin_dir plugin_names in
  exists added,
    Loader.plugins (snd r) = plugins0 ++ added /\
    (fst r = 0 \/ fst r = -1) /\
    (length added <=
     length (filter (fun n : string => n ≠ "") (default [] plugin_names)))%nat /\
    Forall (fun p => exists n, n ∈ default [] plugin_names /\ n ≠ "" /\
              chassis_plugin_load (Loader.plugin_filename pf plugin_dir n) =
                Some p)
           added.
Proof.
  cbv zeta. unfold Loader.chassis_frontend_load_plugins.
  destruct plugin_names as [names|]; simpl.
  - set (st := {| Loader.plugins := plugins0; Loader.events := [] |}).
    destruct (load_plugins_from_shape pf chassis_plugin_load plugin_dir names
                st st) as (r & added & new & H1 & _ & Hr & Hlen & Hall).
    rewrite H1. simpl. by exists added.
  - exists []. rewrite app_nil_r. split_and!; try done. by left.
Qed.

(** X2: the call returns 0 exactly when the module of every non-empty
    requested name can be loaded. *)
Theorem load_plugins_succeeds_iff_all_loadable (pf : platform)
    (chassis_plugin_load : string -> option chassis_plugin)
    (plugins0 : list chassis_plugin) (plugin_dir : string)
    (names : list string) :
  fst (Loader.chassis_frontend_load_plugins pf chassis_plugin_load plugins0
         plugin_dir (Some names)) = 0 <->
  Loader.all_loadable pf chassis_plugin_load plugin_dir names.
Proof.
  unfold Loader.chassis_frontend_load_plugins. split.
  - apply load_plugins_from_zero.
  - intros Hall. by rewrite (load_plugins_from_success _ _ _ _ _ Hall).
Qed.

(** X3: loading a list in two parts is loading it at once: when the first
    part loads, the call on the whole list returns what the call on the
    second part returns on the collection the first part left, with the
    same collection, and the loader is called for the first part and then
    for the second. *)
Theorem load_plugins_in_two_parts (pf : platform)
    (chassis_plugin_load : string -> option chassis_plugin)
    (plugins0 : list chassis_plugin) (plugin_dir : string)
    (names1 names2 : list string) :
  let load := Loader.chassis_frontend_load_plugins pf chassis_plugin_load in
  let first := load plugins0 plugin_dir (Some names1) in
  let second := load (Loader.plugins (snd first)) plugin_dir (Some names2) in
  let whole := load plugins0 plugin_dir (Some (names1 ++ names2)) in
  fst first = 0 ->
  fst whole = fst second /\
  Loader.plugins (snd whole) = Loader.plugins (snd second) /\
  Loader.load_calls (snd whole) =
    Loader.load_calls (snd first) ++ Loader.load_calls (snd second).
Proof.
  cbv zeta. unfold Loader.chassis_frontend_load_plugins. intros H1.
  rewrite load_plugins_from_app. cbv zeta.
  apply Z.eqb_eq in H1. rewrite H1.
  destruct (Loader.load_plugins_from pf chassis_plugin_load plugin_dir names1 _)
    as [r1 st1]. simpl.
  destruct (load_plugins_from_shape pf chassis_plugin_load plugin_dir names2
              st1 {| Loader.plugins := Loader.plugins st1; Loader.events := [] |})
    as (r & added & new & Ha & Hb & _).
  rewrite Ha, Hb. simpl. split_and!; try done.
  unfold Loader.load_calls. simpl. by rewrite omap_app.
Qed.

Lemma load_plugins_in_two_parts_witness :
  Loader.plugins
    (snd (Loader.chassis_frontend_load_plugins unix_platform only_foo []
            plugins_dir (Some ([""; "foo"] ++ ["bar"])))) = [plugin_foo] /\
  fst (Loader.chassis_frontend_load_plugins unix_platform only_foo []
         plugins_dir (Some ([""; "foo"] ++ ["bar"]))) = -1.
Proof.
  destruct (load_plugins_in_two_parts unix_platform only_foo [] plugins_dir
              [""; "foo"] ["bar"] eq_refl) as (Hret & Hpl & _).
  split; [rewrite Hpl | rewrite Hret]; reflexivity.
Defined.

(** X4: the plugin directory is never an error and is always set after
    the call; a directory that was set is kept as it is, and a second
    call, even with another base directory, changes nothing.  Without
    [WIN32] the derived directory is [<base_dir>/lib/<PACKAGE>/plugins]
    as [g_build_filename] joins it. *)
Theorem init_plugin_dir_keeps_explicit (pf : platform)
    (g_build_filename : list string -> string)
    (_plugin_dir : option string) (base_dir : string) :
  let init := Loader.chassis_frontend_init_plugin_dir pf g_build_filename in
  let r := init _plugin_dir base_dir in
  fst r = 0 /\
  is_Some (snd r) /\
  (forall d, _plugin_dir = Some d -> snd r = Some d) /\
  (forall base_dir', init (snd r) base_dir' = r) /\
  (_plugin_dir = None -> WIN32 pf = false ->
   snd r = Some (g_build_filename [base_dir; "lib"; PACKAGE pf; "plugins"])).
Proof.
  cbv zeta. unfold Loader.chassis_frontend_init_plugin_dir.
  destruct _plugin_dir as [d|]; simpl; split_and!; try done;
    try by eexists.
  intros _ ->. done.
Qed.

Lemma init_plugin_dir_keeps_explicit_witness :
  Loader.chassis_frontend_init_plugin_dir unix_platform build_filename_example
    (Some "/srv/plugins") "/opt/mysql-proxy" = (0, Some "/srv/plugins") /\
  Loader.chassis_frontend_init_plugin_dir unix_platform build_filename_example
    None "/opt/mysql-proxy" = (0, Some "/opt/mysql-proxy/lib/mysql-proxy/plugins").
Proof.
  split.
  - destruct (init_plugin_dir_keeps_explicit unix_platform
                build_filename_example (Some "/srv/plugins") "/opt/mysql-proxy")
      as (H0 & _ & Hkeep & _).
    apply injective_projections; [exact H0 | exact (Hkeep _ eq_refl)].
  - destruct (init_plugin_dir_keeps_explicit unix_platform
                build_filename_example None "/opt/mysql-proxy")
      as (H0 & _ & _ & _ & Hder).
    apply injective_projections; [exact H0 | exact (Hder eq_refl eq_refl)].
Defined.

(** ** Base directory *)

(** X5: a directory that [chassis_get_basedir] derives is stored without
    being checked: the call succeeds whatever the directory looks like,
    and handing the stored value back to the function succeeds exactly
    when that directory is absolute; the second call does not derive
    anything. *)
Theorem init_basedir_derived_is_not_checked (pf : platform)
    (chassis_get_basedir : string -> option string)
    (prg_name d : string) :
  let init := Basedir.chassis_frontend_init_basedir pf chassis_get_basedir
                prg_name in
  chassis_get_basedir prg_name = Some d ->
  Basedir.ret (init None) = 0 /\
  Basedir.base_dir_out (init None) = Some d /\
  (Basedir.ret (init (Basedir.base_dir_out (init None))) = 0 <->
   g_path_is_absolute pf d = true) /\
  Basedir.attempts_resolution (init (Basedir.base_dir_out (init None))) = false.
Proof.
  cbv zeta. intros Hget. unfold Basedir.chassis_frontend_init_basedir.
  rewrite Hget. simpl.
  destruct (g_path_is_absolute pf d); simpl; split_and!; try done.
Qed.

Lemma init_basedir_derived_is_not_checked_witness :
  Basedir.ret (Basedir.chassis_frontend_init_basedir unix_platform
                 basedir_relative "mysql-proxy" None) = 0 /\
  Basedir.ret (Basedir.chassis_frontend_init_basedir unix_platform
                 basedir_relative "mysql-proxy" (Some ".")) = -1.
Proof.
  destruct (init_basedir_derived_is_not_checked unix_platform basedir_relative
              "mysql-proxy" "." eq_refl) as (H0 & _ & Hiff & _).
  split; [exact H0 | reflexivity].
Defined.

(** X6: the call ends in one of two ways.  Either it returns 0, logs
    nothing and leaves a base directory in [*_base_dir]; or it returns -1,
    logs exactly one diagnostic and leaves [*_base_dir] as it was. *)
Theorem init_basedir_fails_with_one_diagnostic (pf : platform)
    (chassis_get_basedir : string -> option string)
    (prg_name : string) (_base_dir : option string) :
  let r := Basedir.chassis_frontend_init_basedir pf chassis_get_basedir
             prg_name _base_dir in
  (Basedir.ret r = 0 /\ criticals (Basedir.events r) = [] /\
   is_Some (Basedir.base_dir_out r)) \/
  (Basedir.ret r = -1 /\ length (criticals (Basedir.events r)) = 1%nat /\
   Basedir.base_dir_out r = _base_dir).
Proof.
  cbv zeta. unfold Basedir.chassis_frontend_init_basedir.
  destruct _base_dir as [d|].
  - destruct (g_path_is_absolute pf d); simpl; [left | right];
      split_and!; try done; by eexists.
  - destruct (chassis_get_basedir prg_name) as [d|]; simpl; [left | right];
      split_and!; try done; by eexists.
Qed.

(** ** Configuration file *)

(** X7: a mapping is returned exactly when the permission check passes
    and the parser accepts the file.  A file that fails the permission
    check is refused without a diagnostic of this function; a file the
    parser rejects is reported by one diagnostic that carries the file
    name and the parser's message. *)
Theorem open_config_file_outcomes
    (chassis_filemode_check : string -> Z)
    (g_key_file_load_from_file : GKeyFile -> string -> GKeyFile + string)
    (filename : string) :
  let r := ConfigFile.chassis_frontend_open_config_file chassis_filemode_check
             g_key_file_load_from_file filename in
  let fresh := g_key_file_set_list_separator g_key_file_new ","%char in
  (is_Some (fst r) <->
   chassis_filemode_check filename = 0 /\
   exists keyfile, g_key_file_load_from_file fresh filename = inl keyfile) /\
  (chassis_filemode_check filename ≠ 0 -> criticals (snd r) = []) /\
  (is_Some (fst r) -> criticals (snd r) = []) /\
  (forall message,
     chassis_filemode_check filename = 0 ->
     g_key_file_load_from_file fresh filename = inr message ->
     criticals (snd r) =
       [EvCritical (G_STRLOC 399 +:+ ": loading configuration from " +:+
                    filename +:+ " failed: " +:+ message)]).
Proof.
  cbv zeta. unfold ConfigFile.chassis_frontend_open_config_file.
  destruct (chassis_filemode_check filename =? 0) eqn:Hchk; simpl.
  - apply Z.eqb_eq in Hchk.
    destruct (g_key_file_load_from_file _ filename) as [kf|msg]; simpl;
      split_and!; try done;
      try (by intros [? ?]); try (by intros m _ [= ->]).
    + split; [intros _; split; [done | by eexists] | by eexists].
    + split; [by intros [? ?] | by intros (_ & ? & ?)].
  - apply Z.eqb_neq in Hchk. split_and!; try done;
      try (by intros [? ?]).
    split; [by intros [? ?] | by intros (? & _)].
Qed.

Lemma open_config_file_outcomes_witness :
  criticals (snd (ConfigFile.chassis_frontend_open_config_file
                    filemode_check_example key_file_load_example
                    "/etc/world-writable.cnf")) = [] /\
  length (criticals (snd (ConfigFile.chassis_frontend_open_config_file
                            filemode_check_example key_file_load_example
                            "/etc/broken.cnf"))) = 1%nat.
Proof.
  split.
  - destruct (open_config_file_outcomes filemode_check_example
                key_file_load_example "/etc/world-writable.cnf")
      as (_ & Hsilent & _).
    apply Hsilent. done.
  - destruct (open_config_file_outcomes filemode_check_example
                key_file_load_example "/etc/broken.cnf")
      as (_ & _ & _ & Hmsg).
    rewrite (Hmsg _ eq_refl eq_refl). reflexivity.
Defined.

(** ** Environment of the embedded Lua *)

Section LuaMore.
Variable pf : platform.
Variable environ : Type.
Variable g_setenv : environ -> string -> string -> bool -> bool * environ.
Variable _putenv_s : environ -> string -> string -> Z * environ.
Variable getenv : environ -> string -> option string.
Variable g_getenv : environ -> string -> option string.
Variable g_strerror_errno : environ -> string.

Local Abbreviation lua_setenv :=
  (Lua.chassis_frontend_lua_setenv pf environ g_setenv _putenv_s getenv).
Local Abbreviation platform_setenv :=
  (lua_platform_setenv pf environ g_setenv _putenv_s).
Local Abbreviation init_lua_var :=
  (Lua.init_lua_var pf environ g_setenv _putenv_s getenv g_getenv
                    g_strerror_errno).

(** The function in terms of the call it makes. *)
Lemma lua_setenv_unfold key value env :
  lua_setenv key value env =
    let r := fst (platform_setenv env key value) in
    let env' := snd (platform_setenv env key value) in
    (r, env',
     EvSetenv key value ::
     if r =? 0 then
       match getenv env' key with
       | None => [Lua.setting_failed 162 key value "(getenv() == NULL)"]
       | Some v =>
           if negb (String.eqb v value) then
             [Lua.setting_failed 165 key value ("(getenv() == " +:+ v +:+ ")")]
           else []
       end
     else []).
Proof.
  unfold Lua.chassis_frontend_lua_setenv, lua_platform_setenv.
  destruct (_WIN32 pf).
  - by destruct (_putenv_s env key value).
  - by destruct (g_setenv env key value true) as [[] ?].
Qed.

Lemma init_lua_var_present var default l1 l2 env v :
  g_getenv env var = Some v ->
  init_lua_var var default l1 l2 None env = (0, env, []).
Proof. intros H. unfold Lua.init_lua_var. by rewrite H. Qed.

Lemma init_lua_var_honoured var default l1 l2 p env env' :
  platform_setenv env var p = (0, env') ->
  getenv env' var = Some p ->
  init_lua_var var default l1 l2 (Some p) env = (0, env', [EvSetenv var p]).
Proof.
  intros Hset Hget. unfold Lua.init_lua_var.
  rewrite lua_setenv_unfold, Hset. simpl. rewrite Hget.
  by rewrite String.eqb_refl.
Qed.

Lemma init_lua_var_setenv_calls var default l1 l2 set_path env :
  setenv_calls (snd (init_lua_var var default l1 l2 set_path env)) =
    match set_path with
    | Some p => [(var, p)]
    | None =>
        match g_getenv env var with
        | Some _ => []
        | None => [(var, default)]
        end
    end.
Proof.
  unfold Lua.init_lua_var.
  destruct set_path as [p|]; [|destruct (g_getenv env var); [done|]];
    rewrite lua_setenv_unfold; cbv zeta;
    destruct (fst (platform_setenv env var _) =? 0) eqn:E; simpl;
    try done; repeat case_match; done.
Qed.
End LuaMore.

(** X8: without a path from the command line, a variable that is already
    in the environment is left alone: nothing is set, nothing is logged
    and the environment is the one the call was given. *)
Theorem init_lua_paths_respect_environment (pf : platform) (environ : Type)
    (g_setenv : environ -> string -> string -> bool -> bool * environ)
    (_putenv_s : environ -> string -> string -> Z * environ)
    (getenv g_getenv : environ -> string -> option string)
    (g_strerror_errno : environ -> string)
    (g_build_filename : list string -> string)
    (base_dir prg_name : string) (env : environ) :
  (is_Some (g_getenv env Lua.LUA_PATH) ->
   Lua.chassis_frontend_init_lua_path pf environ g_setenv _putenv_s getenv
     g_getenv g_strerror_errno g_build_filename None base_dir prg_name env =
     (0, env, [])) /\
  (is_Some (g_getenv env Lua.LUA_CPATH) ->
   Lua.chassis_frontend_init_lua_cpath pf environ g_setenv _putenv_s getenv
     g_getenv g_strerror_errno g_build_filename None base_dir prg_name env =
     (0, env, [])).
Proof.
  unfold Lua.chassis_frontend_init_lua_path, Lua.chassis_frontend_init_lua_cpath.
  split; intros [v Hv]; by eapply init_lua_var_present.
Qed.

Lemma init_lua_paths_respect_environment_witness :
  Lua.chassis_frontend_init_lua_path unix_platform (gmap string string)
    setenv_example putenv_example getenv_example getenv_example
    (fun _ => "") build_filename_example None "/opt/mysql-proxy" "mysql-proxy"
    {[ "LUA_PATH" := "/home/me/?.lua" ]} =
  (0, {[ "LUA_PATH" := "/home/me/?.lua" ]}, []).
Proof.
  apply (init_lua_paths_respect_environment unix_platform (gmap string string)
           setenv_example putenv_example getenv_example getenv_example
           (fun _ => "") build_filename_example "/opt/mysql-proxy" "mysql-proxy"
           {[ "LUA_PATH" := "/home/me/?.lua" ]}).
  by eexists.
Defined.

(** X9: a path from the command line wins over the environment.  When
    the C library stores it and reads it back, the call returns 0 with the
    environment the library produced and logs nothing, whatever the
    variable held before. *)
Theorem init_lua_paths_set_the_given_path (pf : platform) (environ : Type)
    (g_setenv : environ -> string -> string -> bool -> bool * environ)
    (_putenv_s : environ -> string -> string -> Z * environ)
    (getenv g_getenv : environ -> string -> option string)
    (g_strerror_errno : environ -> string)
    (g_build_filename : list string -> string)
    (p base_dir prg_name : string) (env env' : environ) :
  (lua_platform_setenv pf environ g_setenv _putenv_s env Lua.LUA_PATH p =
     (0, env') ->
   getenv env' Lua.LUA_PATH = Some p ->
   Lua.chassis_frontend_init_lua_path pf environ g_setenv _putenv_s getenv
     g_getenv g_strerror_errno g_build_filename (Some p) base_dir prg_name env =
     (0, env', [EvSetenv Lua.LUA_PATH p])) /\
  (lua_platform_setenv pf environ g_setenv _putenv_s env Lua.LUA_CPATH p =
     (0, env') ->
   getenv env' Lua.LUA_CPATH = Some p ->
   Lua.chassis_frontend_init_lua_cpath pf environ g_setenv _putenv_s getenv
     g_getenv g_strerror_errno g_build_filename (Some p) base_dir prg_name env =
     (0, env', [EvSetenv Lua.LUA_CPATH p])).
Proof.
  unfold Lua.chassis_frontend_init_lua_path, Lua.chassis_frontend_init_lua_cpath.
  split; intros Hset Hget; by apply init_lua_var_honoured.
Qed.

Lemma init_lua_paths_set_the_given_path_witness :
  Lua.chassis_frontend_init_lua_path unix_platform (gmap string string)
    setenv_example putenv_example getenv_example getenv_example
    (fun _ => "") build_filename_example (Some "/opt/lua/?.lua")
    "/opt/mysql-proxy" "mysql-proxy" {[ "LUA_PATH" := "/home/me/?.lua" ]} =
  (0, {[ "LUA_PATH" := "/opt/lua/?.lua" ]},
   [EvSetenv "LUA_PATH" "/opt/lua/?.lua"]).
Proof.
  destruct (init_lua_paths_set_the_given_path unix_platform (gmap string string)
              setenv_example putenv_example getenv_example getenv_example
              (fun _ => "") build_filename_example "/opt/lua/?.lua"
              "/opt/mysql-proxy" "mysql-proxy"
              {[ "LUA_PATH" := "/home/me/?.lua" ]}
              {[ "LUA_PATH" := "/opt/lua/?.lua" ]}) as (Hpath & _).
  apply Hpath; by vm_compute.
Defined.

(** X10: each function sets at most one variable, its own, and the value
    is chosen in a fixed order: the path from the command line if there
    is one; otherwise nothing if the environment has the variable;
    otherwise the default derived from the base directory. *)
Theorem init_lua_paths_value_order (pf : platform) (environ : Type)
    (g_setenv : environ -> string -> string -> bool -> bool * environ)
    (_putenv_s : environ -> string -> string -> Z * environ)
    (getenv g_getenv : environ -> string -> option string)
    (g_strerror_errno : environ -> string)
    (g_build_filename : list string -> string)
    (set_path : option string) (base_dir prg_name : string) (env : environ) :
  let chosen var default :=
    match set_path with
    | Some p => [(var, p)]
    | None =>
        match g_getenv env var with
        | Some _ => []
        | None => [(var, default)]
        end
    end in
  setenv_calls
    (snd (Lua.chassis_frontend_init_lua_path pf environ g_setenv _putenv_s
            getenv g_getenv g_strerror_errno g_build_filename set_path base_dir
            prg_name env)) =
    chosen Lua.LUA_PATH
      (g_build_filename [base_dir; "lib"; prg_name; "lua"; "?.lua"]) /\
  setenv_calls
    (snd (Lua.chassis_frontend_init_lua_cpath pf environ g_setenv _putenv_s
            getenv g_getenv g_strerror_errno g_build_filename set_path base_dir
            prg_name env)) =
    chosen Lua.LUA_CPATH
      (if _WIN32 pf then
         g_build_filename [base_dir; "bin"; "lua-?." +:+ G_MODULE_SUFFIX pf]
       else
         g_build_filename [base_dir; "lib"; prg_name; "lua";
                           "?." +:+ G_MODULE_SUFFIX pf]).
Proof.
  cbv zeta.
  unfold Lua.chassis_frontend_init_lua_path, Lua.chassis_frontend_init_lua_cpath.
  rewrite !init_lua_var_setenv_calls. split; [done|].
  unfold Lua.chassis_frontend_get_default_lua_cpath.
  by destruct (_WIN32 pf).
Qed.

(** X11: [chassis_frontend_lua_setenv] returns what the call that sets
    the variable returned and keeps the environment that call left.  It
    logs a diagnostic exactly when that call reported success and the
    variable does not read back as the value that was set. *)
Theorem lua_setenv_checks_the_read_back (pf : platform) (environ : Type)
    (g_setenv : environ -> string -> string -> bool -> bool * environ)
    (_putenv_s : environ -> string -> string -> Z * environ)
    (getenv : environ -> string -> option string)
    (key value : string) (env : environ) :
  let set := lua_platform_setenv pf environ g_setenv _putenv_s env key value in
  let r := Lua.chassis_frontend_lua_setenv pf environ g_setenv _putenv_s getenv
             key value env in
  fst (fst r) = fst set /\
  snd (fst r) = snd set /\
  setenv_calls (snd r) = [(key, value)] /\
  (criticals (snd r) ≠ [] <->
   fst set = 0 /\ getenv (snd set) key ≠ Some value).
Proof.
  cbv zeta. rewrite lua_setenv_unfold. cbv zeta. simpl.
  destruct (fst (lua_platform_setenv _ _ _ _ _ _ _) =? 0) eqn:E.
  - apply Z.eqb_eq in E.
    destruct (getenv _ key) as [v|] eqn:Hv.
    + destruct (String.eqb v value) eqn:Ev; simpl.
      * apply String.eqb_eq in Ev. subst v. split_and!; try done.
        naive_solver.
      * apply String.eqb_neq in Ev. split_and!; try done.
        naive_solver.
    + simpl. split_and!; try done.
  - apply Z.eqb_neq in E. simpl. split_and!; try done.
    naive_solver.
Qed.

(** ** PID file *)

Lemma string_take_all (s : string) :
  Pidfile.string_take (String.length s) s = s.
Proof. induction s as [|c s IH]; [done|]. simpl. by rewrite IH. Qed.

Lemma string_take_length (n : nat) (s : string) :
  String.length (Pidfile.string_take n s) = Nat.min n (String.length s).
Proof.
  revert s. induction n as [|n IH]; intros [|c s]; simpl; try done.
  by rewrite IH.
Qed.

Section PidfileMore.
Variable open_errno : gmap string Pidfile.file -> string -> option Z.
Variable write_result : gmap string Pidfile.file -> string -> string -> Z * Z.
Variable umask getpid : Z.
Variable g_strerror : Z -> string.
Variable g_file_error_from_errno : Z -> Z.

Local Abbreviation write_pidfile :=
  (Pidfile.chassis_frontend_write_pidfile open_errno write_result umask getpid
     g_strerror g_file_error_from_errno).

Lemma open_trunc_creat_file path mode (fs : gmap string Pidfile.file) :
  Pidfile.open_trunc_creat umask path mode fs !! path =
    Some {| Pidfile.f_mode := match fs !! path with
                              | Some old => Pidfile.f_mode old
                              | None => Z.land mode (Z.lnot umask)
                              end;
            Pidfile.f_data := "" |}.
Proof.
  unfold Pidfile.open_trunc_creat.
  destruct (fs !! path); by rewrite lookup_insert_eq.
Qed.

(** The file after [open] and a [write] that returned [n >= 0]. *)
Lemma write_pidfile_written pid_file gerr (fs : gmap string Pidfile.file) n errno :
  open_errno fs pid_file = None ->
  write_result (Pidfile.open_trunc_creat umask pid_file 384 fs) pid_file
               (pretty getpid) = (n, errno) ->
  0 <= n ->
  fst (write_pidfile pid_file gerr fs) = (0, gerr) /\
  snd (write_pidfile pid_file gerr fs) !! pid_file =
    Some {| Pidfile.f_mode := match fs !! pid_file with
                              | Some old => Pidfile.f_mode old
                              | None => Z.land 384 (Z.lnot umask)
                              end;
            Pidfile.f_data := Pidfile.string_take (Z.to_nat n) (pretty getpid) |}.
Proof.
  intros Hopen Hwrite Hn. unfold Pidfile.chassis_frontend_write_pidfile.
  rewrite Hopen, Hwrite.
  assert (E : (n <? 0) = false) by (apply Z.ltb_ge; lia). rewrite E. simpl.
  split; [done|].
  unfold Pidfile.write_fd. rewrite open_trunc_creat_file. simpl.
  by rewrite lookup_insert_eq.
Qed.
End PidfileMore.

(** X13: the call returns 0 or -1, and -1 exactly when [open] fails or
    [write] returns a negative value.  On 0 the error location is left as
    it was; when [open] fails the file system is left as it was and a free
    error location receives the code of the [errno] of [open]. *)
Theorem write_pidfile_error_reporting
    (open_errno : gmap string Pidfile.file -> string -> option Z)
    (write_result : gmap string Pidfile.file -> string -> string -> Z * Z)
    (umask getpid : Z) (g_strerror : Z -> string)
    (g_file_error_from_errno : Z -> Z)
    (pid_file : string) (gerr : option (option GError))
    (fs : gmap string Pidfile.file) :
  let r := Pidfile.chassis_frontend_write_pidfile open_errno write_result umask
             getpid g_strerror g_file_error_from_errno pid_file gerr fs in
  let opened := Pidfile.open_trunc_creat umask pid_file 384 fs in
  (fst (fst r) = 0 \/ fst (fst r) = -1) /\
  (fst (fst r) = -1 <->
   is_Some (open_errno fs pid_file) \/
   fst (write_result opened pid_file (pretty getpid)) < 0) /\
  (fst (fst r) = 0 -> snd (fst r) = gerr) /\
  (forall errno, open_errno fs pid_file = Some errno ->
     snd r = fs /\
     (gerr = Some None ->
      exists e, snd (fst r) = Some (Some e) /\
                code e = g_file_error_from_errno errno)).
Proof.
  cbv zeta. unfold Pidfile.chassis_frontend_write_pidfile.
  destruct (open_errno fs pid_file) as [errno|]; simpl.
  - split_and!; try done; [by right | | ].
    + split; [intros _; left; by eexists | done].
    + intros e [= <-]. split; [done|]. intros ->. by eexists.
  - destruct (write_result _ pid_file _) as [n errno]. simpl.
    destruct (n <? 0) eqn:E; simpl.
    + apply Z.ltb_lt in E. split_and!; try done; [by right|].
      split; [intros _; by right | done].
    + apply Z.ltb_ge in E. split_and!; try done; [by left|].
      split; [done | intros [[? ?]|?]; [done | lia]].
Qed.

Lemma write_pidfile_error_reporting_witness :
  fst (fst (Pidfile.chassis_frontend_write_pidfile open_ok write_all 18 4711
              strerror_example file_error_example "/var/run/mysql-proxy.pid"
              (Some None) old_pidfile)) = 0 /\
  snd (fst (Pidfile.chassis_frontend_write_pidfile open_ok write_all 18 4711
              strerror_example file_error_example "/var/run/mysql-proxy.pid"
              (Some None) old_pidfile)) = Some None.
Proof.
  destruct (write_pidfile_error_reporting open_ok write_all 18 4711
              strerror_example file_error_example "/var/run/mysql-proxy.pid"
              (Some None) old_pidfile) as (_ & _ & Hkeep & _).
  split; [reflexivity | apply Hkeep; reflexivity].
Defined.

(** X14: when [open] succeeds and [write] stores the whole text, the call
    returns 0, leaves the error location alone, and the file holds the
    process id in decimal and nothing else; an existing file keeps its
    mode, a new one has mode 0600 less the mask. *)
Theorem write_pidfile_stores_the_pid
    (open_errno : gmap string Pidfile.file -> string -> option Z)
    (write_result : gmap string Pidfile.file -> string -> string -> Z * Z)
    (umask getpid : Z) (g_strerror : Z -> string)
    (g_file_error_from_errno : Z -> Z)
    (pid_file : string) (gerr : option (option GError))
    (fs : gmap string Pidfile.file) (errno : Z) :
  let r := Pidfile.chassis_frontend_write_pidfile open_errno write_result umask
             getpid g_strerror g_file_error_from_errno pid_file gerr fs in
  open_errno fs pid_file = None ->
  write_result (Pidfile.open_trunc_creat umask pid_file 384 fs) pid_file
               (pretty getpid) =
    (Z.of_nat (String.length (pretty getpid)), errno) ->
  fst r = (0, gerr) /\
  snd r !! pid_file =
    Some {| Pidfile.f_mode := match fs !! pid_file with
                              | Some old => Pidfile.f_mode old
                              | None => Z.land 384 (Z.lnot umask)
                              end;
            Pidfile.f_data := pretty getpid |}.
Proof.
  cbv zeta. intros Hopen Hwrite.
  destruct (write_pidfile_written open_errno write_result umask getpid
              g_strerror g_file_error_from_errno pid_file gerr fs _ _
              Hopen Hwrite) as (H1 & H2); [lia|].
  split; [exact H1|]. rewrite H2, Nat2Z.id. by rewrite string_take_all.
Qed.

Lemma write_pidfile_stores_the_pid_witness :
  snd (Pidfile.chassis_frontend_write_pidfile open_ok write_all 18 815
         strerror_example file_error_example "/var/run/mysql-proxy.pid"
         (Some None) old_pidfile) !! "/var/run/mysql-proxy.pid" =
  Some {| Pidfile.f_mode := 420; Pidfile.f_data := "815" |}.
Proof.
  destruct (write_pidfile_stores_the_pid open_ok write_all 18 815
              strerror_example file_error_example "/var/run/mysql-proxy.pid"
              (Some None) old_pidfile 0 eq_refl eq_refl) as (_ & Hfile).
  exact Hfile.
Defined.

(** X15: a short write is not noticed.  When [write] stores fewer bytes
    than the text has, the call still returns 0 and reports no error,
    and the file holds only the first bytes of the process id. *)
Theorem write_pidfile_short_write_is_success
    (open_errno : gmap string Pidfile.file -> string -> option Z)
    (write_result : gmap string Pidfile.file -> string -> string -> Z * Z)
    (umask getpid : Z) (g_strerror : Z -> string)
    (g_file_error_from_errno : Z -> Z)
    (pid_file : string) (gerr : option (option GError))
    (fs : gmap string Pidfile.file) (n errno : Z) :
  let r := Pidfile.chassis_frontend_write_pidfile open_errno write_result umask
             getpid g_strerror g_file_error_from_errno pid_file gerr fs in
  open_errno fs pid_file = None ->
  write_result (Pidfile.open_trunc_creat umask pid_file 384 fs) pid_file
               (pretty getpid) = (n, errno) ->
  0 <= n < Z.of_nat (String.length (pretty getpid)) ->
  fst r = (0, gerr) /\
  exists f,
    snd r !! pid_file = Some f /\
    Pidfile.f_data f = Pidfile.string_take (Z.to_nat n) (pretty getpid) /\
    String.length (Pidfile.f_data f) = Z.to_nat n /\
    Pidfile.f_data f ≠ pretty getpid.
Proof.
  cbv zeta. intros Hopen Hwrite Hn.
  destruct (write_pidfile_written open_errno write_result umask getpid
              g_strerror g_file_error_from_errno pid_file gerr fs _ _
              Hopen Hwrite) as (H1 & H2); [lia|].
  split; [exact H1|]. eexists. split; [exact H2|]. simpl.
  assert (Hlen : String.length
                   (Pidfile.string_take (Z.to_nat n) (pretty getpid)) =
                 Z.to_nat n).
  { rewrite string_take_length. lia. }
  split_and!; try done.
  intros Heq. rewrite Heq in Hlen. lia.
Qed.

Lemma write_pidfile_short_write_is_success_witness :
  let r := Pidfile.chassis_frontend_write_pidfile open_ok write_two_bytes 18
             4711 strerror_example file_error_example
             "/var/run/mysql-proxy.pid" (Some None) ∅ in
  fst r = (0, Some None) /\
  snd r !! "/var/run/mysql-proxy.pid" =
    Some {| Pidfile.f_mode := 384; Pidfile.f_data := "47" |}.
Proof.
  destruct (write_pidfile_short_write_is_success open_ok write_two_bytes 18
              4711 strerror_example file_error_example
              "/var/run/mysql-proxy.pid" (Some None) ∅ 2 0 eq_refl eq_refl)
    as (Hret & _).
  { by vm_compute. }
  split; [exact Hret | reflexivity].
Defined.

(** ** The two parsing stages *)

Section FrontendMore.
Variable pf : platform.
Variable strtol : string -> option Z.
Variable g_locale_to_utf8 : string -> option string.
Variable keyfile_value : GOptionArg -> ascii -> string -> option value.

Local Abbreviation init_plugins_from :=
  (Frontend.init_plugins_from pf strtol g_locale_to_utf8 keyfile_value).

(** A plugin without options does not take part in the loop. *)
Lemma init_plugins_from_skip plugins keyfile base_dir st :
  init_plugins_from plugins keyfile base_dir st =
  init_plugins_from (List.filter has_options plugins) keyfile base_dir st.
Proof.
  revert st. induction plugins as [|p plugins IH]; intros st; [done|].
  cbn [List.filter].
  assert (Hh : has_options p =
               match chassis_plugin_get_options p with
               | Some _ => true
               | None => false
               end) by done.
  rewrite Hh. clear Hh.
  destruct (chassis_plugin_get_options p) as [config_entries|] eqn:Hopt.
  - cbn [Frontend.init_plugins_from]. rewrite Hopt.
    destruct (GOption.g_option_context_parse _ _ _ _ _ _); try done.
    destruct keyfile as [kf|].
    + destruct (Keyfile.chassis_keyfile_to_options _ kf _ _ _) as [r m'].
      simpl. destruct (negb _); [done | apply IH].
    + simpl. apply IH.
  - cbn [Frontend.init_plugins_from]. rewrite Hopt. apply IH.
Qed.

(** With the help options disabled the loop ends by returning 0 or -1
    and leaves them disabled. *)
Lemma init_plugins_from_returns plugins keyfile base_dir st :
  help_enabled (Frontend.option_ctx st) = false ->
  let r := init_plugins_from plugins keyfile base_dir st in
  (fst r = Returned 0 \/ fst r = Returned (-1)) /\
  help_enabled (Frontend.option_ctx (snd r)) = false.
Proof.
  cbv zeta. revert st. induction plugins as [|p plugins IH]; intros st Hhelp;
    cbn [Frontend.init_plugins_from].
  { split; [by left | done]. }
  destruct (chassis_plugin_get_options p) as [config_entries|]; [|by apply IH].
  set (ctx := g_option_context_add_group _ _).
  pose proof (parse_no_help pf strtol g_locale_to_utf8 ctx (Frontend.argv st) (Frontend.mem st)
                Hhelp) as Hno.
  destruct (GOption.g_option_context_parse _ _ _ ctx _ _) as [av m|code msg|];
    [| split; [by right | done] | done].
  destruct keyfile as [kf|].
  - destruct (Keyfile.chassis_keyfile_to_options _ kf _ _ _) as [r m'].
    simpl. destruct (negb _); [split; [by right | done] | by apply IH].
  - simpl. by apply IH.
Qed.

(** Without a key file nothing is read from one. *)
Lemma init_plugins_from_no_keyfile plugins base_dir st :
  Frontend.sections_consulted
    (Frontend.events (snd (init_plugins_from plugins None base_dir st))) =
  Frontend.sections_consulted (Frontend.events st).
Proof.
  revert st. induction plugins as [|p plugins IH]; intros st;
    cbn [Frontend.init_plugins_from]; [done|].
  destruct (chassis_plugin_get_options p) as [config_entries|]; [|apply IH].
  destruct (GOption.g_option_context_parse _ _ _ _ _ _); simpl.
  - rewrite IH. simpl. unfold Frontend.sections_consulted.
    rewrite !omap_app. simpl. by rewrite !app_nil_r.
  - unfold Frontend.sections_consulted. rewrite !omap_app. simpl.
    by rewrite !app_nil_r.
  - unfold Frontend.sections_consulted. rewrite !omap_app. simpl.
    by rewrite !app_nil_r.
Qed.

Lemma parse_passes_app tr1 tr2 :
  parse_passes (tr1 ++ tr2) = (parse_passes tr1 + parse_passes tr2)%nat.
Proof. unfold parse_passes. by rewrite List.filter_app, length_app. Qed.

(** One parsing pass for each plugin with options the loop gets to. *)
Lemma init_plugins_from_passes plugins keyfile base_dir st :
  let r := init_plugins_from plugins keyfile base_dir st in
  let n := length (List.filter has_options plugins) in
  (parse_passes (Frontend.events (snd r)) <=
   parse_passes (Frontend.events st) + n)%nat /\
  (fst r = Returned 0 ->
   parse_passes (Frontend.events (snd r)) =
   (parse_passes (Frontend.events st) + n)%nat).
Proof.
  cbv zeta. revert st. induction plugins as [|p plugins IH]; intros st;
    cbn [Frontend.init_plugins_from List.filter].
  { split; [simpl; lia | intros _; simpl; lia]. }
  assert (Hh : has_options p =
               match chassis_plugin_get_options p with
               | Some _ => true
               | None => false
               end) by done.
  rewrite Hh. clear Hh.
  destruct (chassis_plugin_get_options p) as [config_entries|]; [|apply IH].
  cbn [length].
  destruct (GOption.g_option_context_parse _ _ _ _ _ _); simpl.
  - destruct keyfile as [kf|].
    + destruct (Keyfile.chassis_keyfile_to_options _ kf _ _ _) as [r m'].
      simpl. destruct (negb _); simpl.
      * rewrite !parse_passes_app. unfold parse_passes. simpl.
        split; [lia | done].
      * match goal with |- context [init_plugins_from _ _ _ ?s] =>
          set (s' := s); destruct (IH s') as (Hle & Heq) end.
        assert (Hs : parse_passes (Frontend.events s') =
                     S (parse_passes (Frontend.events st))).
        { subst s'. simpl. rewrite !parse_passes_app. unfold parse_passes.
          simpl. lia. }
        rewrite Hs in Hle, Heq.
        split; [lia | intros H; rewrite (Heq H); lia].
    + simpl.
      match goal with |- context [init_plugins_from _ _ _ ?s] =>
        set (s' := s); destruct (IH s') as (Hle & Heq) end.
      assert (Hs : parse_passes (Frontend.events s') =
                   S (parse_passes (Frontend.events st))).
      { subst s'. simpl. rewrite !parse_passes_app. unfold parse_passes.
        simpl. lia. }
      rewrite Hs in Hle, Heq.
      split; [lia | intros H; rewrite (Heq H); lia].
  - rewrite !parse_passes_app. unfold parse_passes. simpl.
    split; [lia | done].
  - rewrite !parse_passes_app. unfold parse_passes. simpl.
    split; [lia | done].
Qed.
End FrontendMore.

(** X16: plugins that export no options do not take part: the call does
    for a list of plugins what it does for the plugins of the list that
    have options, and on a list where none has options it returns 0 and
    leaves the context, the arguments, the slots and the events alone. *)
Theorem init_plugins_skips_plugins_without_options (pf : platform)
    (strtol : string -> option Z)
    (g_locale_to_utf8 : string -> option string)
    (keyfile_value : GOptionArg -> ascii -> string -> option value)
    (plugins : list chassis_plugin) (keyfile : option GKeyFile)
    (base_dir : string) (st : Frontend.state) :
  let init := Frontend.chassis_frontend_init_plugins pf strtol g_locale_to_utf8 keyfile_value in
  init plugins keyfile base_dir st =
    init (List.filter has_options plugins) keyfile base_dir st /\
  (forallb (fun p => negb (has_options p)) plugins = true ->
   init plugins keyfile base_dir st = (Returned 0, st)).
Proof.
  cbv zeta. unfold Frontend.chassis_frontend_init_plugins.
  split; [apply init_plugins_from_skip|].
  intros Hnone. rewrite init_plugins_from_skip.
  assert (E : List.filter has_options plugins = []).
  { induction plugins as [|p plugins IH]; [done|]. simpl in *.
    apply andb_true_iff in Hnone as [Hp Hrest].
    apply negb_true_iff in Hp. rewrite Hp. by apply IH. }
  by rewrite E.
Qed.

Lemma init_plugins_skips_plugins_without_options_witness :
  Frontend.chassis_frontend_init_plugins unix_platform strtol_decimal locale_example
    keyfile_value_example [plugin_foo; plugin_a] (Some keyfile_example)
    "/opt/mysql-proxy" (start ["mysql-proxy"; "--bogus"]) =
  (Returned 0, start ["mysql-proxy"; "--bogus"]).
Proof.
  apply (init_plugins_skips_plugins_without_options unix_platform
           strtol_decimal locale_example keyfile_value_example [plugin_foo; plugin_a]
           (Some keyfile_example) "/opt/mysql-proxy"
           (start ["mysql-proxy"; "--bogus"])).
  reflexivity.
Defined.

(** X17: the plugins are handled one after the other and a failure ends
    the call: on a list in two parts the call does the first part, and
    only when that returned 0 it goes on with the second part from the
    state the first part left; otherwise the result of the first part is
    the result of the call. *)
Theorem init_plugins_in_two_parts (pf : platform)
    (strtol : string -> option Z)
    (g_locale_to_utf8 : string -> option string)
    (keyfile_value : GOptionArg -> ascii -> string -> option value)
    (plugins1 plugins2 : list chassis_plugin) (keyfile : option GKeyFile)
    (base_dir : string) (st : Frontend.state) :
  let init := Frontend.chassis_frontend_init_plugins pf strtol g_locale_to_utf8 keyfile_value in
  let first := init plugins1 keyfile base_dir st in
  init (plugins1 ++ plugins2) keyfile base_dir st =
    match fst first with
    | Returned 0 => init plugins2 keyfile base_dir (snd first)
    | _ => first
    end.
Proof.
  cbv zeta. unfold Frontend.chassis_frontend_init_plugins.
  apply init_plugins_from_app.
Qed.

(** X18: the base pass disables the help options and the passes for the
    plugins keep them disabled, so neither stage ends the process: both
    return 0 or -1. *)
Theorem bootstrap_stages_return (pf : platform)
    (strtol : string -> option Z)
    (g_locale_to_utf8 : string -> option string)
    (keyfile_value : GOptionArg -> ascii -> string -> option value)
    (print_version config_file : slot) (plugins : list chassis_plugin)
    (keyfile : option GKeyFile) (base_dir : string) (st : Frontend.state) :
  let base :=
    Frontend.chassis_frontend_init_base_options pf strtol g_locale_to_utf8 print_version
      config_file st in
  let final :=
    Frontend.chassis_frontend_init_plugins pf strtol g_locale_to_utf8 keyfile_value plugins
      keyfile base_dir (snd base) in
  help_enabled (Frontend.option_ctx (snd base)) = false /\
  (fst base = Returned 0 \/ fst base = Returned (-1)) /\
  (fst final = Returned 0 \/ fst final = Returned (-1)) /\
  help_enabled (Frontend.option_ctx (snd final)) = false.
Proof.
  cbv zeta.
  assert (Hbase :
    help_enabled (Frontend.option_ctx (snd
      (Frontend.chassis_frontend_init_base_options pf strtol g_locale_to_utf8 print_version
         config_file st))) = false /\
    (fst (Frontend.chassis_frontend_init_base_options pf strtol g_locale_to_utf8 print_version
            config_file st) = Returned 0 \/
     fst (Frontend.chassis_frontend_init_base_options pf strtol g_locale_to_utf8 print_version
            config_file st) = Returned (-1))).
  { unfold Frontend.chassis_frontend_init_base_options.
    set (ctx := g_option_context_set_ignore_unknown_options _ true).
    pose proof (parse_no_help pf strtol g_locale_to_utf8 ctx (Frontend.argv st) (Frontend.mem st)
                  eq_refl) as Hno.
    destruct (GOption.g_option_context_parse _ _ _ ctx _ _); simpl;
      [split; [done | by left] | split; [done | by right] | done]. }
  destruct Hbase as (Hhelp & Hret).
  destruct (init_plugins_from_returns pf strtol g_locale_to_utf8 keyfile_value plugins keyfile
              base_dir _ Hhelp) as (Hfinal & Hkeep).
  split_and!; done.
Qed.

(** X19: without a configuration file the call never asks for a section
    of one. *)
Theorem init_plugins_without_keyfile_reads_nothing (pf : platform)
    (strtol : string -> option Z)
    (g_locale_to_utf8 : string -> option string)
    (keyfile_value : GOptionArg -> ascii -> string -> option value)
    (plugins : list chassis_plugin) (base_dir : string)
    (st : Frontend.state) :
  Frontend.sections_consulted
    (Frontend.events (snd (Frontend.chassis_frontend_init_plugins pf strtol g_locale_to_utf8
                             keyfile_value plugins None base_dir st))) =
  Frontend.sections_consulted (Frontend.events st).
Proof.
  unfold Frontend.chassis_frontend_init_plugins.
  apply init_plugins_from_no_keyfile.
Qed.

(** X20: the arguments are parsed once for each plugin with options and
    never for a plugin without: the call adds at most as many passes as
    there are plugins with options, and exactly that many when it
    returns 0. *)
Theorem init_plugins_one_pass_per_plugin (pf : platform)
    (strtol : string -> option Z)
    (g_locale_to_utf8 : string -> option string)
    (keyfile_value : GOptionArg -> ascii -> string -> option value)
    (plugins : list chassis_plugin) (keyfile : option GKeyFile)
    (base_dir : string) (st : Frontend.state) :
  let r := Frontend.chassis_frontend_init_plugins pf strtol g_locale_to_utf8 keyfile_value
             plugins keyfile base_dir st in
  let n := length (List.filter has_options plugins) in
  (parse_passes (Frontend.events (snd r)) <=
   parse_passes (Frontend.events st) + n)%nat /\
  (fst r = Returned 0 ->
   parse_passes (Frontend.events (snd r)) =
   (parse_passes (Frontend.events st) + n)%nat).
Proof.
  cbv zeta. unfold Frontend.chassis_frontend_init_plugins.
  apply init_plugins_from_passes.
Qed.

Lemma init_plugins_one_pass_per_plugin_witness :
  parse_passes
    (Frontend.events
       (snd (Frontend.chassis_frontend_init_plugins unix_platform
               strtol_decimal locale_example keyfile_value_example
               [plugin_foo; plugin_proxy; plugin_a; plugin_admin]
               (Some keyfile_example) "/opt/mysql-proxy"
               (start ["mysql-proxy"])))) = 2%nat.
Proof.
  destruct (init_plugins_one_pass_per_plugin unix_platform strtol_decimal locale_example
              keyfile_value_example
              [plugin_foo; plugin_proxy; plugin_a; plugin_admin]
              (Some keyfile_example) "/opt/mysql-proxy"
              (start ["mysql-proxy"])) as (_ & Heq).
  rewrite Heq; [reflexivity | by vm_compute].
Defined.

Section BasePass.
Variable pf : platform.
Variable strtol : string -> option Z.
Variable g_locale_to_utf8 : string -> option string.
Variables print_version config_file : slot.

Local Abbreviation fresh gs he iu :=
  (base_context print_version config_file
     {| main_entries := []; groups := gs; help_enabled := he;
        ignore_unknown := iu |}).
Local Abbreviation stored := (stored_name g_locale_to_utf8 config_file).

(** The function in terms of the context it parses with. *)
Lemma base_pass_unfold st :
  Frontend.chassis_frontend_init_base_options pf strtol g_locale_to_utf8
    print_version config_file st =
  let ctx := base_context print_version config_file (Frontend.option_ctx st) in
  let res := GOption.g_option_context_parse pf strtol g_locale_to_utf8 ctx
               (Frontend.argv st) (Frontend.mem st) in
  let st' := Frontend.emit
               (EvOptionParse true (Frontend.argv st) (parse_error res))
               (Frontend.set_ctx ctx st) in
  match res with
  | ParseOk av m => (Returned 0, Frontend.set_parsed av m st')
  | ParseFailed _ _ => (Returned (-1), st')
  | ParseHelp => (Exited 0, st')
  end.
Proof. reflexivity. Qed.

Lemma lookup_defaults_file_equals file gs he iu next (m : memory) :
  GOption.lookup_long pf strtol g_locale_to_utf8 (fresh gs he iu)
    ("defaults-file=" +:+ file) next m ∅ = stored file m.
Proof.
  unfold GOption.lookup_long.
  assert (H : GOption.parse_long_option pf strtol g_locale_to_utf8
                (main_entries (fresh gs he iu)) ("defaults-file=" +:+ file)
                next m ∅ =
              GOption.parse_arg pf strtol g_locale_to_utf8
                (defaults_file_entry config_file) (Some file)
                "--defaults-file" m ∅) by reflexivity.
  rewrite H. unfold stored_name, GOption.parse_arg, GOption.string_value.
  simpl. by destruct (g_locale_to_utf8 file).
Qed.

Lemma lookup_defaults_file_next file gs he iu (m : memory) :
  GOption.lookup_long pf strtol g_locale_to_utf8 (fresh gs he iu)
    "defaults-file" (Some file) m ∅ = GOption.with_next (stored file m).
Proof.
  unfold GOption.lookup_long.
  assert (H : GOption.parse_long_option pf strtol g_locale_to_utf8
                (main_entries (fresh gs he iu)) "defaults-file"
                (Some file) m ∅ =
              GOption.with_next
                (GOption.parse_arg pf strtol g_locale_to_utf8
                   (defaults_file_entry config_file) (Some file)
                   "--defaults-file" m ∅))
    by reflexivity.
  rewrite H. unfold stored_name, GOption.parse_arg, GOption.string_value.
  simpl. by destruct (g_locale_to_utf8 file).
Qed.

Lemma parse_defaults_file prg file gs he iu (m : memory) argv :
  argv = [prg; "--defaults-file=" +:+ file] \/
  argv = [prg; "--defaults-file"; file] ->
  GOption.g_option_context_parse pf strtol g_locale_to_utf8 (fresh gs he iu)
    argv m =
  match g_locale_to_utf8 file with
  | Some name => ParseOk [prg] (<[config_file := VStr name]> m)
  | None => ParseFailed G_CONVERT_ERROR_ILLEGAL_SEQUENCE
              "Invalid byte sequence in conversion input"
  end.
Proof.
  intros [-> | ->]; unfold GOption.g_option_context_parse;
    cbn [GOption.parse_loop].
  - change (classify ("--defaults-file=" +:+ file))
      with (LongOption ("defaults-file=" +:+ file)).
    cbv iota beta.
    change (GOption.help_requested_long _ _) with false. cbv iota.
    rewrite lookup_defaults_file_equals. unfold stored_name.
    by destruct (g_locale_to_utf8 file).
  - change (classify "--defaults-file") with (LongOption "defaults-file").
    cbv iota beta.
    change (GOption.help_requested_long _ _) with false. cbv iota.
    change (head [file]) with (Some file).
    rewrite lookup_defaults_file_next. unfold stored_name.
    by destruct (g_locale_to_utf8 file).
Qed.

Lemma parse_version prg gs he iu (m : memory) argv :
  argv = [prg; "--version"] \/ argv = [prg; "-V"] ->
  GOption.g_option_context_parse pf strtol g_locale_to_utf8 (fresh gs he iu)
    argv m =
  ParseOk [prg] (<[print_version := VBool true]> m).
Proof. intros [-> | ->]; reflexivity. Qed.
End BasePass.

(** X21: on a context without earlier main entries the base pass reads
    the configuration file name from the command line, as
    [--defaults-file=<file>] or as [--defaults-file <file>].  When
    [g_locale_to_utf8] converts the name, the call returns 0, takes the
    option out of the arguments and stores the converted name in the slot
    of the configuration file; when the name does not convert, the call
    returns -1 and leaves the arguments and the slots as they were. *)
Theorem base_pass_reads_defaults_file (pf : platform)
    (strtol : string -> option Z)
    (g_locale_to_utf8 : string -> option string)
    (print_version config_file : slot) (prg file : string)
    (st : Frontend.state) :
  let r := Frontend.chassis_frontend_init_base_options pf strtol
             g_locale_to_utf8 print_version config_file st in
  main_entries (Frontend.option_ctx st) = [] ->
  Frontend.argv st = [prg; "--defaults-file=" +:+ file] \/
  Frontend.argv st = [prg; "--defaults-file"; file] ->
  (forall name, g_locale_to_utf8 file = Some name ->
     fst r = Returned 0 /\
     Frontend.argv (snd r) = [prg] /\
     Frontend.mem (snd r) = <[config_file := VStr name]> (Frontend.mem st)) /\
  (g_locale_to_utf8 file = None ->
     fst r = Returned (-1) /\
     Frontend.argv (snd r) = Frontend.argv st /\
     Frontend.mem (snd r) = Frontend.mem st).
Proof.
  cbv zeta. destruct st as [[me gs he iu] av m ev]. simpl.
  intros -> Hargv. rewrite base_pass_unfold. cbv zeta. simpl.
  rewrite (parse_defaults_file pf strtol g_locale_to_utf8 print_version
             config_file prg file gs he iu m av Hargv).
  split.
  - intros name ->. done.
  - intros ->. done.
Qed.

Lemma base_pass_reads_defaults_file_witness :
  let r := Frontend.chassis_frontend_init_base_options unix_platform
             strtol_decimal locale_example print_version_slot config_file_slot
             (start ["mysql-proxy"; "--defaults-file"; "/etc/proxy.cnf"]) in
  fst r = Returned 0 /\
  Frontend.mem (snd r) !! config_file_slot = Some (VStr "/etc/proxy.cnf").
Proof.
  destruct (base_pass_reads_defaults_file unix_platform strtol_decimal
              locale_example print_version_slot config_file_slot
              "mysql-proxy" "/etc/proxy.cnf"
              (start ["mysql-proxy"; "--defaults-file"; "/etc/proxy.cnf"])
              eq_refl) as (Hok & _).
  { by right. }
  destruct (Hok "/etc/proxy.cnf" eq_refl) as (Hret & _ & Hmem).
  split; [exact Hret | rewrite Hmem; reflexivity].
Defined.

(** X22: on a context without earlier main entries the base pass
    recognises [--version] and its short form [-V]: it returns 0, takes
    the option out of the arguments and sets the version flag. *)
Theorem base_pass_reads_version (pf : platform)
    (strtol : string -> option Z)
    (g_locale_to_utf8 : string -> option string)
    (print_version config_file : slot) (prg : string)
    (st : Frontend.state) :
  let r := Frontend.chassis_frontend_init_base_options pf strtol
             g_locale_to_utf8 print_version config_file st in
  main_entries (Frontend.option_ctx st) = [] ->
  Frontend.argv st = [prg; "--version"] \/ Frontend.argv st = [prg; "-V"] ->
  fst r = Returned 0 /\
  Frontend.argv (snd r) = [prg] /\
  Frontend.mem (snd r) = <[print_version := VBool true]> (Frontend.mem st).
Proof.
  cbv zeta. destruct st as [[me gs he iu] av m ev]. simpl.
  intros -> Hargv. rewrite base_pass_unfold. cbv zeta. simpl.
  by rewrite (parse_version pf strtol g_locale_to_utf8 print_version
                config_file prg gs he iu m av Hargv).
Qed.

Lemma base_pass_reads_version_witness :
  let r := Frontend.chassis_frontend_init_base_options unix_platform
             strtol_decimal locale_example print_version_slot config_file_slot
             (start ["mysql-proxy"; "-V"]) in
  fst r = Returned 0 /\
  Frontend.mem (snd r) !! print_version_slot = Some (VBool true).
Proof.
  destruct (base_pass_reads_version unix_platform strtol_decimal
              locale_example print_version_slot config_file_slot "mysql-proxy"
              (start ["mysql-proxy"; "-V"]) eq_refl) as (Hret & _ & Hmem).
  { by right. }
  split; [exact Hret | rewrite Hmem; reflexivity].
Defined.

(** X23: the base pass registers its two options behind the main entries
    the context had, in every outcome, and logs no diagnostic.  When the
    parse fails the error is dropped: the call returns -1 with the
    arguments and the slots as they were. *)
Theorem base_pass_failure_is_silent (pf : platform)
    (strtol : string -> option Z)
    (g_locale_to_utf8 : string -> option string)
    (print_version config_file : slot) (st : Frontend.state) :
  let r := Frontend.chassis_frontend_init_base_options pf strtol g_locale_to_utf8 print_version
             config_file st in
  main_entries (Frontend.option_ctx (snd r)) =
    main_entries (Frontend.option_ctx st) ++
    [ {| long_name := "version"; short_name := "V";
         arg := G_OPTION_ARG_NONE; arg_data := print_version |};
      {| long_name := "defaults-file"; short_name := zero;
         arg := G_OPTION_ARG_STRING; arg_data := config_file |} ] /\
  groups (Frontend.option_ctx (snd r)) = groups (Frontend.option_ctx st) /\
  criticals (Frontend.events (snd r)) = criticals (Frontend.events st) /\
  (fst r ≠ Returned 0 ->
   fst r = Returned (-1) /\
   Frontend.argv (snd r) = Frontend.argv st /\
   Frontend.mem (snd r) = Frontend.mem st).
Proof.
  cbv zeta. unfold Frontend.chassis_frontend_init_base_options.
  set (ctx := g_option_context_set_ignore_unknown_options _ true).
  pose proof (parse_no_help pf strtol g_locale_to_utf8 ctx (Frontend.argv st) (Frontend.mem st)
                eq_refl) as Hno.
  assert (Hcrit : forall e,
    is_critical e = false ->
    criticals (Frontend.events st ++ [e]) = criticals (Frontend.events st)).
  { intros e He. unfold criticals. rewrite List.filter_app. simpl.
    rewrite He. by rewrite app_nil_r. }
  destruct (GOption.g_option_context_parse _ _ _ ctx _ _); simpl;
    split_and!; try done; by apply Hcrit.
Qed.

Lemma base_pass_failure_is_silent_witness :
  let r := Frontend.chassis_frontend_init_base_options unix_platform strtol_decimal locale_example
             print_version_slot config_file_slot
             (start ["mysql-proxy"; "--bogus"; "--defaults-file"]) in
  fst r = Returned (-1) /\
  Frontend.argv (snd r) = ["mysql-proxy"; "--bogus"; "--defaults-file"] /\
  Frontend.events (snd r) =
    [EvOptionParse true ["mysql-proxy"; "--bogus"; "--defaults-file"]
                   (Some G_OPTION_ERROR_BAD_VALUE)].
Proof.
  destruct (base_pass_failure_is_silent unix_platform strtol_decimal locale_example print_version_slot
              config_file_slot
              (start ["mysql-proxy"; "--bogus"; "--defaults-file"]))
    as (_ & _ & _ & Hfail).
  destruct Hfail as (Hret & Hargv & _); [by vm_compute|].
  split_and!; [exact Hret | exact Hargv | reflexivity].
Defined.

(** ** GLib start-up checks *)

(** X24: the start-up check returns 0 exactly when the headers are those
    of GLib 2.6.0 or later, the library accepts the version of the
    headers, and modules can be loaded.  [g_thread_init] is called exactly
    when the check returns 0; a failed check returns -1 and logs exactly
    one diagnostic, a passed one logs none. *)
Theorem init_glib_checks (headers lib : Glib.version)
    (glib_check_version : Z -> Z -> Z -> option string)
    (g_module_supported : bool) :
  let r := Glib.chassis_frontend_init_glib headers lib glib_check_version
             g_module_supported in
  let recent :=
    2 < Glib.major headers \/
    (Glib.major headers = 2 /\
     (6 < Glib.minor headers \/
      (Glib.minor headers = 6 /\ 0 <= Glib.micro headers))) in
  (Glib.ret r = 0 <->
   recent /\
   glib_check_version (Glib.major headers) (Glib.minor headers)
                      (Glib.micro headers) = None /\
   g_module_supported = true) /\
  (Glib.ret r = 0 \/ Glib.ret r = -1) /\
  (Glib.thread_init r = true <-> Glib.ret r = 0) /\
  length (Glib.events r) = (if Glib.ret r =? 0 then 0%nat else 1%nat) /\
  criticals (Glib.events r) = Glib.events r.
Proof.
  cbv zeta. unfold Glib.chassis_frontend_init_glib, Glib.GLIB_CHECK_VERSION.
  destruct (Glib.major headers >? 2) eqn:E1;
    destruct (Glib.major headers =? 2) eqn:E2;
    destruct (Glib.minor headers >? 6) eqn:E3;
    destruct (Glib.minor headers =? 6) eqn:E4;
    destruct (Glib.micro headers >=? 0) eqn:E5;
    rewrite ?Z.gtb_ltb in *; rewrite ?Z.geb_leb in *;
    rewrite ?Z.ltb_lt, ?Z.ltb_ge, ?Z.eqb_eq, ?Z.eqb_neq, ?Z.leb_le, ?Z.leb_gt
      in *;
    simpl;
    try destruct (glib_check_version _ _ _);
    try destruct g_module_supported; simpl;
    split_and!; try done; try (by left); try (by right);
    try (split; [done | intros (? & ? & ?); (done || lia)]);
    try (split; [intros _; split_and!; (done || lia) | done]).
Qed.
